(** * RaptorState: a shallow embedding of the state wrappers

    The repository wraps the effector reactive engine into five constructors
    ([State], [computed], [asyncState], [fetchState], [mutationState]).  The
    wrappers of [src/state.ts], [src/computed.ts], [src/async.ts] and the
    older [main.ts] are embedded below; the engine they call is a separate
    library and is described by a small store graph with explicit state
    passing. *)

From stdpp Require Import base list gmap strings pretty.

Open Scope Z_scope.
Open Scope nat_scope.

(** ** JavaScript values

    [StateValue<T> = T | null | undefined] (types.ts): a cell may hold either
    absence marker besides a payload.  Objects that are only passed around
    (records, arrays, parsed JSON) are references; [Error] objects carry
    their [message]. *)

Inductive value : Type :=
  | VUndefined
  | VNull
  | VBool (b : bool)
  | VNum (n : Z)
  | VStr (s : string)
  | VError (message : string)
  | VObj (ref : nat).

#[global] Instance value_eq_dec : EqDecision value.
Proof. solve_decision. Defined.

(** [x !== null] and [x !== undefined]. *)
Definition not_null (v : value) : bool :=
  match v with VNull => false | _ => true end.

Definition not_undefined (v : value) : bool :=
  match v with VUndefined => false | _ => true end.

(** [x === true]. *)
Definition is_true (v : value) : bool :=
  match v with VBool true => true | _ => false end.

(** A parameter with the default [= null]: JavaScript substitutes the
    default when the argument is omitted, that is, when it is [undefined]. *)
Definition default_null (arg : value) : value :=
  match arg with VUndefined => VNull | v => v end.

(** The absence markers of the specification. *)
Definition absent (v : value) : Prop := v = VNull \/ v = VUndefined.

(** [a === b].  Primitive values are compared by content and references by
    identity.  An [Error] of the model stands for the object a [new Error]
    expression has just made: it carries its message and no identity, and is
    [===] to no value a cell already holds. *)
Definition strict_eq (a b : value) : bool :=
  match a, b with
  | VError _, _ => false
  | _, VError _ => false
  | _, _ => bool_decide (a = b)
  end.

(** The values whose identity the model tracks: all but [Error] objects. *)
Definition plain (v : value) : bool :=
  match v with VError _ => false | _ => true end.

(** ** The reactive engine *)

Module Engine.

(** Modelled from the spec: the engine (the effector package) is an external
    library and none of its code is part of the repository.  A store is a
    mutable cell with a default state and a list of watchers; a derived store
    also remembers its sources and its combining function.  Section 4.1 and
    4.2 of the specification give the update rule: an event dispatched to a
    store installs the reducer's result and calls every current watcher.
    The specification presents the update as unconditional; the engine's
    own documentation has a store ignore an update whose new state is
    [undefined] or [===] the current state, and that filter is part of the
    model ([commit], [install] and [refresh] below). *)
Inductive node : Type :=
  | Base
  | Derived (sources : list nat) (fn : list value -> value).

Record store : Type := mkStore {
  kind : node;
  defaultState : value;
  currentState : value;
  watchers : list nat
}.

(** Modelled from the spec: the heap of the engine's stores, which the
    repository only reaches through [createStore] and [sample].  [calls] records every invocation of a watcher, as
    the pair of the watcher and the argument it received, oldest first. *)
Record World : Type := mkWorld {
  stores : gmap nat store;
  next_store : nat;
  next_watcher : nat;
  calls : list (nat * value)
}.

Definition empty : World := mkWorld ∅ 0 0 [].

(** Modelled from the spec: [store.getState()], the engine's pure read of
    the current state (section 4.1, [get value]). *)
Definition getState (i : nat) (w : World) : value :=
  match stores w !! i with
  | Some s => currentState s
  | None => VUndefined
  end.

(** Modelled from the spec: the engine gives a new store the next free
    number. *)
Definition alloc (s : store) (w : World) : World * nat :=
  (mkWorld (<[next_store w := s]> (stores w)) (S (next_store w))
           (next_watcher w) (calls w),
   next_store w).

(** Modelled from the spec: the engine's [createStore(initial)]; the state
    given at creation is kept as the default state. *)
Definition createStore (initial : value) (w : World) : World * nat :=
  alloc (mkStore Base initial initial []) w.

(** Modelled from the spec: the engine installs [v] as the state of store
    [i]; the store keeps its default state and its watchers. *)
Definition write (i : nat) (v : value) (w : World) : World :=
  match stores w !! i with
  | Some s =>
      mkWorld (<[i := mkStore (kind s) (defaultState s) v (watchers s)]> (stores w))
              (next_store w) (next_watcher w) (calls w)
  | None => w
  end.

(** Modelled from the spec: the engine's notification step (section 4.1,
    "notifies all current subscribers synchronously"): every current watcher
    of store [i] is called with the store's state. *)
Definition notify (i : nat) (w : World) : World :=
  match stores w !! i with
  | Some s =>
      mkWorld (stores w) (next_store w) (next_watcher w)
              (calls w ++ ((fun t => (t, currentState s)) <$> watchers s))
  | None => w
  end.

(** Modelled from the spec: the engine's push-based propagation (section
    4.2, "recomputes whenever any source cell's value changes", in the same
    propagation step).  The stores created after the updated one are
    visited in creation order; a derived store with an updated source is
    recomputed from the current states of all its sources, in source order.
    When the recomputed state is [===] the state the derived store holds,
    the store is left alone: its watchers are not called and the stores
    derived from it are not recomputed on its account.  Otherwise the store
    is itself updated. *)
Fixpoint refresh (ids : list nat) (dirty : list nat) (w : World) : World :=
  match ids with
  | [] => w
  | j :: ids' =>
      match stores w !! j with
      | Some (mkStore (Derived srcs fn) _ current _) =>
          if existsb (fun k => bool_decide (k ∈ dirty)) srcs
          then
            let v := fn ((fun k => getState k w) <$> srcs) in
            if strict_eq current v then refresh ids' dirty w
            else refresh ids' (j :: dirty) (notify j (write j v w))
          else refresh ids' dirty w
      | _ => refresh ids' dirty w
      end
  end.

(** Modelled from the spec: the engine's store update (section 4.1): install,
    call the watchers, propagate, unless the new state is [===] the current
    one, in which case nothing happens at all. *)
Definition install (i : nat) (v : value) (w : World) : World :=
  if strict_eq (getState i w) v then w
  else
    let w1 := notify i (write i v w) in
    refresh (seq (S i) (next_store w - S i)) [i] w1.

(** Modelled from the spec: the engine's handling of a reducer's result: a
    result of [undefined] means "no update" and is dropped; any other result
    goes through [install]. *)
Definition commit (i : nat) (v : value) (w : World) : World :=
  if not_undefined v then install i v w else w.

(** The state a store holds after [commit] was asked to store [v]. *)
Definition accepted (current v : value) : value :=
  if not_undefined v then v else current.

(** Modelled from the spec: the engine's [store.watch(fn)] (section 4.1,
    [subscribe]): [fn] is called at once with the current state and then on
    every update.  The result is the subscription. *)
Definition watch (i : nat) (w : World) : World * nat :=
  match stores w !! i with
  | Some s =>
      let t := next_watcher w in
      (mkWorld (<[i := mkStore (kind s) (defaultState s) (currentState s)
                                (watchers s ++ [t])]> (stores w))
               (next_store w) (S t) (calls w ++ [(t, currentState s)]),
       t)
  | None => (w, next_watcher w)
  end.

(** Modelled from the spec: calling the function that the engine's [watch]
    returns (section 4.1: [fn] receives no further invocation). *)
Definition unwatch (i t : nat) (w : World) : World :=
  match stores w !! i with
  | Some s =>
      mkWorld (<[i := mkStore (kind s) (defaultState s) (currentState s)
                               (filter (fun u => u ≠ t) (watchers s))]> (stores w))
              (next_store w) (next_watcher w) (calls w)
  | None => w
  end.

(** Modelled from the spec: the engine's [sample({source: stores, fn})]
    with no clock and no target (section 4.2): a store
    holding [fn] of the sources' states, recomputed when a source updates. *)
Definition sample (srcs : list nat) (fn : list value -> value) (w : World)
  : World * nat :=
  let v := fn ((fun k => getState k w) <$> srcs) in
  alloc (mkStore (Derived srcs fn) v v []) w.

(** Modelled from the spec: the engine's [store.on(event, reducer)]
    (section 4.1, [set] and [update]): dispatching the event submits
    [reducer(state, payload)] as the new state; the payload is already
    applied to [reducer] here. *)
Definition on (i : nat) (reducer : value -> value) (w : World) : World :=
  match stores w !! i with
  | Some s => commit i (reducer (currentState s)) w
  | None => w
  end.

(** Modelled from the spec: the engine's [store.reset(event)] (section 4.1,
    [reset]): dispatching the event installs the default state. *)
Definition reset (i : nat) (w : World) : World :=
  match stores w !! i with
  | Some s => install i (defaultState s) w
  | None => w
  end.

End Engine.

(** ** src/state.ts *)

Module StateCell.
Import Engine.

(** The handle returned by [State]: [dollar_state] is the field [$state]. *)
Record StateInstance : Type := mkState { dollar_state : nat }.

(** [State(initialValue = null)] *)
Definition State (initialValue : value) (w : World) : World * StateInstance :=
  let '(w', i) := createStore (default_null initialValue) w in
  (w', mkState i).

(** [get value() { return $state.getState() }] *)
Definition value_of (c : StateInstance) (w : World) : value :=
  getState (dollar_state c) w.

(** [$state.on(set, (_, payload) => payload)] *)
Definition set (c : StateInstance) (payload : value) (w : World) : World :=
  on (dollar_state c) (fun _ => payload) w.

(** [$state.on(update, (state, updater) => updater(state))] *)
Definition update (c : StateInstance) (updater : value -> value) (w : World)
  : World :=
  on (dollar_state c) (fun state => updater state) w.

(** [$state.reset(reset)] *)
Definition reset (c : StateInstance) (w : World) : World :=
  Engine.reset (dollar_state c) w.

(** [subscribe(fn) { return $state.watch(fn) }] *)
Definition subscribe (c : StateInstance) (w : World) : World * nat :=
  watch (dollar_state c) w.

Definition unsubscribe (c : StateInstance) (t : nat) (w : World) : World :=
  unwatch (dollar_state c) t w.

(** A handle of the world [w]: it was returned by [State], so its store
    exists and is not a derived one. *)
Definition is_cell (c : StateInstance) (w : World) : Prop :=
  exists s, stores w !! dollar_state c = Some s /\ kind s = Base.

(** The value captured at construction, which the store keeps as its
    default state. *)
Definition default_of (c : StateInstance) (w : World) : option value :=
  defaultState <$> (stores w !! dollar_state c).

(** The mutations a holder of the handle can issue. *)
Inductive mutation : Type :=
  | MSet (payload : value)
  | MUpdate (updater : value -> value).

Definition mutate (c : StateInstance) (m : mutation) (w : World) : World :=
  match m with
  | MSet payload => set c payload w
  | MUpdate updater => update c updater w
  end.

End StateCell.

(** ** src/computed.ts *)

Module Computed.
Import Engine.

Record ComputedInstance : Type := mkComputed { dollar_state : nat }.

(** [computed(dependencies, fn)]: [sample] over the dependencies with
    [(values) => fn(...values)]. *)
Definition computed (dependencies : list nat) (fn : list value -> value)
  (w : World) : World * ComputedInstance :=
  let '(w', i) := sample dependencies (fun values => fn values) w in
  (w', mkComputed i).

(** [get value() { return $computed.getState() }] *)
Definition value_of (d : ComputedInstance) (w : World) : value :=
  getState (dollar_state d) w.

(** [subscribe(fn) { return $computed.watch(fn) }] *)
Definition subscribe (d : ComputedInstance) (w : World) : World * nat :=
  watch (dollar_state d) w.

End Computed.

(** ** Effects *)

(** How the promise of a handler settles. *)
Inductive outcome : Type :=
  | Resolved (result : value)
  | Rejected (reason : value).

Module Effect.
Import Engine.

(** Modelled from the spec: effector's [createEffect] is not part of the
    repository.  Section 6 of the specification describes an effect as
    exposing a pending-state stream, a success-payload stream, a
    failure-payload stream and a finally-equivalent signal, and section 7
    says that the promise returned by a call rejects when the handler does.
    [running] lists the calls in flight, each with the way its handler's
    promise settles; [pending] is the engine's store of that name, true
    while at least one call is in flight.  A watcher is the state
    transformer its body amounts to. *)
Record Effect : Type := mkEffect {
  handler : value -> outcome;
  running : list outcome;
  pending_watchers : list (value -> World -> World);
  doneData_watchers : list (value -> World -> World);
  failData_watchers : list (value -> World -> World);
  finally_watchers : list (value -> World -> World)
}.

(** Modelled from the spec: the engine's [createEffect(handler)]. *)
Definition createEffect (handler : value -> outcome) : Effect :=
  mkEffect handler [] [] [] [] [].

(** Modelled from the spec: the state of the engine's store [fx.pending]. *)
Definition pending (fx : Effect) : value :=
  VBool (negb (bool_decide (running fx = []))).

(** Modelled from the spec: the engine calls the watchers of a unit in the
    order of their registration. *)
Definition run_watchers (ws : list (value -> World -> World)) (payload : value)
  (w : World) : World :=
  foldl (fun w' fn => fn payload w') w ws.

(** Modelled from the spec: [fx.pending.watch(fn)]; [pending] is a store,
    so [fn] is called at once with its current state. *)
Definition watch_pending (fn : value -> World -> World) (fx : Effect)
  (w : World) : Effect * World :=
  (mkEffect (handler fx) (running fx) (pending_watchers fx ++ [fn])
            (doneData_watchers fx) (failData_watchers fx) (finally_watchers fx),
   fn (pending fx) w).

(** Modelled from the spec: [fx.doneData.watch(fn)],
    [fx.failData.watch(fn)] and [fx.finally.watch(fn)]; these are events of
    the engine, [fn] is only called when they fire. *)
Definition watch_doneData (fn : value -> World -> World) (fx : Effect) : Effect :=
  mkEffect (handler fx) (running fx) (pending_watchers fx)
           (doneData_watchers fx ++ [fn]) (failData_watchers fx)
           (finally_watchers fx).

Definition watch_failData (fn : value -> World -> World) (fx : Effect) : Effect :=
  mkEffect (handler fx) (running fx) (pending_watchers fx)
           (doneData_watchers fx) (failData_watchers fx ++ [fn])
           (finally_watchers fx).

Definition watch_finally (fn : value -> World -> World) (fx : Effect) : Effect :=
  mkEffect (handler fx) (running fx) (pending_watchers fx)
           (doneData_watchers fx) (failData_watchers fx)
           (finally_watchers fx ++ [fn]).

(** Modelled from the spec: the engine's record of the calls in flight is
    replaced. *)
Definition with_running (rs : list outcome) (fx : Effect) : Effect :=
  mkEffect (handler fx) rs (pending_watchers fx) (doneData_watchers fx)
           (failData_watchers fx) (finally_watchers fx).

(** Modelled from the spec: the engine brings the store [fx.pending] up to
    date after the calls in flight have changed; [before] is the state the
    store held.  Like every store it calls its watchers only when its state
    changes. *)
Definition update_pending (before : value) (fx : Effect) (w : World) : World :=
  if strict_eq before (pending fx) then w
  else run_watchers (pending_watchers fx) (pending fx) w.

(** Modelled from the spec: calling the engine's effect.  The handler is
    invoked, the call is in flight and [pending] is updated.  The promise
    that is returned settles in [settle]. *)
Definition call (params : value) (fx : Effect) (w : World) : Effect * World :=
  let fx' := with_running (running fx ++ [handler fx params]) fx in
  (fx', update_pending (pending fx) fx' w).

(** Modelled from the spec: the engine delivers the settlement on two
    paths, [finally] with the update of [pending], and [doneData] or
    [failData].  Neither the repository nor the specification fixes which
    path runs first, so the order is an argument. *)
Inductive delivery : Type := FinallyFirst | FinallyLast.

(** Modelled from the spec: the [finally] path of a settlement; [pending]
    is recomputed from the calls still in flight, [before] being its state
    before the settlement. *)
Definition deliver_finally (before : value) (fx : Effect) (w : World) : World :=
  run_watchers (finally_watchers fx) VUndefined (update_pending before fx w).

(** Modelled from the spec: the [doneData] path when the handler's promise
    resolved, the [failData] path when it rejected. *)
Definition deliver_result (o : outcome) (fx : Effect) (w : World) : World :=
  match o with
  | Resolved result => run_watchers (doneData_watchers fx) result w
  | Rejected reason => run_watchers (failData_watchers fx) reason w
  end.

(** Modelled from the spec: settlement of the [k]-th call in flight
    (sections 4.3 and 7).  The last component is how the promise returned
    by that call settles; [None] when there is no such call. *)
Definition settle (order : delivery) (k : nat) (fx : Effect) (w : World)
  : option (Effect * World * outcome) :=
  match running fx !! k with
  | None => None
  | Some o =>
      let fx' := with_running (delete k (running fx)) fx in
      let before := pending fx in
      let w' := match order with
                | FinallyFirst =>
                    deliver_result o fx' (deliver_finally before fx' w)
                | FinallyLast =>
                    deliver_finally before fx' (deliver_result o fx' w)
                end in
      Some (fx', w', o)
  end.

End Effect.

(** ** src/async.ts *)

Module Async.
Import Engine Effect.
Import StateCell.

Record AsyncStateInstance : Type := mkAsync {
  data : StateInstance;
  loading : StateInstance;
  error : StateInstance;
  fx : Effect;
  (** the constructor's parameter, captured by [reset] *)
  initialData : value
}.

(** [asyncState(handler, initialData = null)] *)
Definition asyncState (handler : value -> outcome) (initialData : value)
  (w : World) : World * AsyncStateInstance :=
  let initialData := default_null initialData in
  let fx := createEffect handler in
  let '(w, data) := State initialData w in
  let '(w, loading) := State (VBool false) w in
  let '(w, error) := State VNull w in
  let '(fx, w) := watch_pending (fun isLoading => set loading isLoading) fx w in
  let fx := watch_doneData
              (fun result w' => set error VNull (set data result w')) fx in
  let fx := watch_failData (fun err => set error err) fx in
  (w, mkAsync data loading error fx initialData).

Definition with_fx (fx' : Effect) (h : AsyncStateInstance) : AsyncStateInstance :=
  mkAsync (data h) (loading h) (error h) fx' (initialData h).

(** [execute: fx]: the call, up to the point where the handler's promise is
    awaited. *)
Definition execute (params : value) (h : AsyncStateInstance) (w : World)
  : AsyncStateInstance * World :=
  let '(fx', w') := call params (fx h) w in (with_fx fx' h, w').

(** The [k]-th call in flight settles. *)
Definition settled (order : delivery) (k : nat) (h : AsyncStateInstance)
  (w : World) : option (AsyncStateInstance * World * outcome) :=
  match settle order k (fx h) w with
  | Some (fx', w', o) => Some (with_fx fx' h, w', o)
  | None => None
  end.

(** [get isLoading() { return loading.value === true }] *)
Definition isLoading (h : AsyncStateInstance) (w : World) : bool :=
  is_true (value_of (loading h) w).

(** [get hasError() { return error.value !== null }] *)
Definition hasError (h : AsyncStateInstance) (w : World) : bool :=
  not_null (value_of (error h) w).

(** [get hasData() { return data.value !== null && data.value !== undefined }] *)
Definition hasData (h : AsyncStateInstance) (w : World) : bool :=
  not_null (value_of (data h) w) && not_undefined (value_of (data h) w).

(** [reset() { data.set(initialData); loading.set(false); error.set(null) }] *)
Definition reset (h : AsyncStateInstance) (w : World) : World :=
  set (error h) VNull (set (loading h) (VBool false) (set (data h) (initialData h) w)).

(** [mutationState(handler) { return asyncState(handler) }] *)
Definition mutationState (handler : value -> outcome) (w : World)
  : World * AsyncStateInstance :=
  asyncState handler VUndefined w.

(** A handle as [asyncState] builds it, at any later moment: the three
    watchers it installed on its effect, and its three cells, which are
    distinct cells of the world. *)
Definition wired (h : AsyncStateInstance) : Prop :=
  pending_watchers (fx h) = [fun isLoading => set (loading h) isLoading]
  /\ doneData_watchers (fx h)
     = [fun result w' => set (error h) VNull (set (data h) result w')]
  /\ failData_watchers (fx h) = [fun err => set (error h) err]
  /\ finally_watchers (fx h) = [].

Definition handle_of (h : AsyncStateInstance) (w : World) : Prop :=
  wired h
  /\ is_cell (data h) w /\ is_cell (loading h) w /\ is_cell (error h) w
  /\ dollar_state (data h) <> dollar_state (loading h)
  /\ dollar_state (data h) <> dollar_state (error h)
  /\ dollar_state (loading h) <> dollar_state (error h).

(** *** fetchState *)

(** Modelled from the spec: the host's [fetch] and [Response] are not part
    of the repository (section 6: a standard request/response fetch
    primitive).  A response carries its numeric status, its status text and
    the way [response.json()] settles; [ok] is true for the 2xx statuses. *)
Record Response : Type := mkResponse {
  status : N;
  statusText : string;
  json : outcome
}.

(** Modelled from the spec: [response.ok] of the host, true for the 2xx
    statuses (section 4.4). *)
Definition ok (response : Response) : bool :=
  ((200 <=? status response) && (status response <=? 299))%N.

(** Modelled from the spec: the host's [fetch(url, options)] either answers
    or fails at the network level (section 7). *)
Inductive fetched : Type :=
  | Answered (response : Response)
  | Failed (reason : value).

(** [RequestInit]: an object, as its list of properties. *)
Definition RequestInit : Type := list (string * value).

(** The template literal [`HTTP ${response.status}: ${response.statusText}`]. *)
Definition http_error_message (response : Response) : string :=
  "HTTP " +:+ pretty (status response) +:+ ": " +:+ statusText response.

(** The handler that [fetchState] passes to [asyncState]. *)
Definition fetchHandler (fetch : string -> RequestInit -> fetched)
  (url : string) (options : RequestInit) : value -> outcome :=
  fun _ =>
    match fetch url options with
    | Failed reason => Rejected reason
    | Answered response =>
        if negb (ok response)
        then Rejected (VError (http_error_message response))
        else json response
    end.

(** [fetchState(url, options = {})] *)
Definition fetchState (fetch : string -> RequestInit -> fetched)
  (url : string) (options : RequestInit) (w : World)
  : World * AsyncStateInstance :=
  asyncState (fetchHandler fetch url options) VUndefined w.

(** [String.prototype.includes], used to read an error's description. *)
Fixpoint includes (s sub : string) : bool :=
  String.prefix sub s ||
  match s with
  | EmptyString => false
  | String _ s' => includes s' sub
  end.

(** The description of a value that is an [Error]. *)
Definition error_message (v : value) : option string :=
  match v with VError message => Some message | _ => None end.

End Async.

(** ** main.ts

    The single-file library that preceded [src/]; [State] has the same
    wiring of [set], [update] and [reset], and [asyncState] drives [loading]
    from two events of its own. *)

Module Main.
Import Engine Effect.
Import StateCell.

(** [clear]: [$state.reset(clear)] and [clear.watch(() => set(null))]. *)
Definition clear (c : StateInstance) (w : World) : World :=
  set c VNull (Engine.reset (dollar_state c) w).

(** [hasValue() { const current = $state.getState();
                  return current !== null && current !== undefined }] *)
Definition hasValue (c : StateInstance) (w : World) : bool :=
  let current := getState (dollar_state c) w in
  not_null current && not_undefined current.

Record AsyncState : Type := mkAsyncState {
  data : StateInstance;
  loading : StateInstance;
  error : StateInstance;
  effect : Effect;
  initialData : value
}.

(** [asyncState(effect, initialData = null)].  An effect is itself a
    function, so [typeof effect === "function"] always takes the
    [createEffect] branch. *)
Definition asyncState (handler : value -> outcome) (initialData : value)
  (w : World) : World * AsyncState :=
  let initialData := default_null initialData in
  let fx := createEffect handler in
  let '(w, data) := State initialData w in
  let '(w, loading) := State (VBool false) w in
  let '(w, error) := State VNull w in
  (* setLoadingTrue.watch(() => loading.set(true)) *)
  let setLoadingTrue := set loading (VBool true) in
  (* setLoadingFalse.watch(() => loading.set(false)) *)
  let setLoadingFalse := set loading (VBool false) in
  let fx := watch_finally (fun _ => setLoadingFalse) fx in
  let fx := watch_doneData
              (fun result w' =>
                 set error VNull (set data result (setLoadingTrue w'))) fx in
  let fx := watch_failData (fun err => set error err) fx in
  (w, mkAsyncState data loading error fx initialData).

Definition with_effect (fx' : Effect) (h : AsyncState) : AsyncState :=
  mkAsyncState (data h) (loading h) (error h) fx' (initialData h).

(** [execute: fx] *)
Definition execute (params : value) (h : AsyncState) (w : World)
  : AsyncState * World :=
  let '(fx', w') := call params (effect h) w in (with_effect fx' h, w').

Definition settled (order : delivery) (k : nat) (h : AsyncState) (w : World)
  : option (AsyncState * World * outcome) :=
  match settle order k (effect h) w with
  | Some (fx', w', o) => Some (with_effect fx' h, w', o)
  | None => None
  end.

(** [get isLoading() { return loading.value === true }] *)
Definition isLoading (h : AsyncState) (w : World) : bool :=
  is_true (value_of (loading h) w).

(** [get hasError() { return error.hasValue() }] *)
Definition hasError (h : AsyncState) (w : World) : bool :=
  hasValue (error h) w.

(** [get hasData() { return data.hasValue() }] *)
Definition hasData (h : AsyncState) (w : World) : bool :=
  hasValue (data h) w.

(** [reset() { data.set(initialData); loading.set(false); error.set(null) }] *)
Definition reset (h : AsyncState) (w : World) : World :=
  set (error h) VNull (set (loading h) (VBool false) (set (data h) (initialData h) w)).

Definition wired (h : AsyncState) : Prop :=
  pending_watchers (effect h) = []
  /\ doneData_watchers (effect h)
     = [fun result w' =>
          set (error h) VNull (set (data h) result (set (loading h) (VBool true) w'))]
  /\ failData_watchers (effect h) = [fun err => set (error h) err]
  /\ finally_watchers (effect h) = [fun _ => set (loading h) (VBool false)].

Definition handle_of (h : AsyncState) (w : World) : Prop :=
  wired h
  /\ is_cell (data h) w /\ is_cell (loading h) w /\ is_cell (error h) w
  /\ dollar_state (data h) <> dollar_state (loading h)
  /\ dollar_state (data h) <> dollar_state (error h)
  /\ dollar_state (loading h) <> dollar_state (error h).

End Main.

(** ** Programs over cells and derived values *)

Module Program.
Import Engine StateCell.

(** What a holder of handles can do to the world of stores.  A handle only
    comes from the constructor that returns it: [set], [update] and [reset]
    exist on the handles of [State] alone, and the dependencies of
    [computed] are stores that already exist. *)
Inductive action : Type :=
  | NewState (initialValue : value)
  | NewComputed (dependencies : list nat) (fn : list value -> value)
  | DoSet (c : StateInstance) (payload : value)
  | DoUpdate (c : StateInstance) (updater : value -> value)
  | DoReset (c : StateInstance)
  | DoSubscribe (store : nat)
  | DoUnsubscribe (store : nat) (subscription : nat).

Definition is_base (i : nat) (w : World) : bool :=
  match stores w !! i with
  | Some (mkStore Base _ _ _) => true
  | _ => false
  end.

Definition exists_store (w : World) (i : nat) : bool :=
  match stores w !! i with Some _ => true | None => false end.

Definition perform (a : action) (w : World) : World :=
  match a with
  | NewState initialValue => (State initialValue w).1
  | NewComputed dependencies fn =>
      if forallb (exists_store w) dependencies
      then (Computed.computed dependencies fn w).1
      else w
  | DoSet c payload =>
      if is_base (dollar_state c) w then set c payload w else w
  | DoUpdate c updater =>
      if is_base (dollar_state c) w then update c updater w else w
  | DoReset c =>
      if is_base (dollar_state c) w then reset c w else w
  | DoSubscribe i => (watch i w).1
  | DoUnsubscribe i t => unwatch i t w
  end.

Definition run (prog : list action) : World :=
  foldl (fun w a => perform a w) Engine.empty prog.

(** The invocations of the watcher [t] so far. *)
Definition calls_to (t : nat) (w : World) : list (nat * value) :=
  filter (fun c => c.1 = t) (calls w).

(** The watchers of a store. *)
Definition watchers_of (i : nat) (w : World) : list nat :=
  match stores w !! i with
  | Some s => watchers s
  | None => []
  end.

(** Invariants of the worlds that programs build: stores are numbered in
    creation order; a derived store only has older sources and holds its
    function of their states; a subscription belongs to one store, once. *)
Definition bounded (w : World) : Prop :=
  forall i s, stores w !! i = Some s -> i < next_store w.

Definition derived_ok (w : World) : Prop :=
  forall j s srcs fn,
    stores w !! j = Some s -> kind s = Derived srcs fn ->
    Forall (fun k => k < j) srcs
    /\ currentState s = fn ((fun k => getState k w) <$> srcs).

Definition tokens_ok (w : World) : Prop :=
  (forall i, NoDup (watchers_of i w))
  /\ (forall i t, t ∈ watchers_of i w -> t < next_watcher w)
  /\ (forall i j t, t ∈ watchers_of i w -> t ∈ watchers_of j w -> i = j).

Definition sound (w : World) : Prop :=
  bounded w /\ derived_ok w /\ tokens_ok w.

End Program.

(** ** Scenarios of section 8 of the specification *)

Module Scenarios.
Import Engine Effect StateCell.

(** [async (n) => n * 2] *)
Definition double : value -> outcome :=
  fun params =>
    match params with
    | VNum n => Resolved (VNum (n * 2))
    | _ => Resolved VUndefined
    end.

(** [async () => { throw new Error("boom") }] *)
Definition boom : value -> outcome :=
  fun _ => Rejected (VError "boom").

(** [(a, b) => a + b] on numbers. *)
Definition add : list value -> value :=
  fun values =>
    match values with
    | [VNum a; VNum b] => VNum (a + b)
    | _ => VUndefined
    end.

(** [handle = asyncState(double); handle.execute(21)], the call pending. *)
Definition one_call : Async.AsyncStateInstance * World :=
  let '(w, h) := Async.asyncState double VUndefined Engine.empty in
  Async.execute (VNum 21) h w.

(** [handle.execute(21); handle.execute(4)], both calls pending. *)
Definition two_calls : Async.AsyncStateInstance * World :=
  let '(h, w) := one_call in Async.execute (VNum 4) h w.

(** [handle = asyncState(boom, 7); handle.execute()], the call pending. *)
Definition failing_call : Async.AsyncStateInstance * World :=
  let '(w, h) := Async.asyncState boom (VNum 7) Engine.empty in
  Async.execute VUndefined h w.

(** The same two programs against [main.ts]. *)
Definition main_one_call : Main.AsyncState * World :=
  let '(w, h) := Main.asyncState double VUndefined Engine.empty in
  Main.execute (VNum 21) h w.

(** [handle = asyncState(boom); handle.error.set(undefined)] *)
Definition error_undefined : Async.AsyncStateInstance * World :=
  let '(w, h) := Async.asyncState boom VUndefined Engine.empty in
  (h, set (Async.error h) VUndefined w).

(** [() => Promise.reject(undefined)] *)
Definition reject_undefined : value -> outcome :=
  fun _ => Rejected VUndefined.

(** [async () => {}], which resolves with [undefined]. *)
Definition resolve_undefined : value -> outcome :=
  fun _ => Resolved VUndefined.

(** [handle = asyncState(reject_undefined); handle.execute()], the call
    pending. *)
Definition undefined_rejection : Async.AsyncStateInstance * World :=
  let '(w, h) := Async.asyncState reject_undefined VUndefined Engine.empty in
  Async.execute VUndefined h w.

(** [handle = asyncState(resolve_undefined, 7); handle.execute()], the call
    pending. *)
Definition undefined_result : Async.AsyncStateInstance * World :=
  let '(w, h) := Async.asyncState resolve_undefined (VNum 7) Engine.empty in
  Async.execute VUndefined h w.

(** [c1 = State(0); c2 = State(0); d = computed([c1.$state, c2.$state], add);
    c1.set(3); c2.set(4)] *)
Definition sum_of_cells : Computed.ComputedInstance * World :=
  let '(w, c1) := State (VNum 0) Engine.empty in
  let '(w, c2) := State (VNum 0) w in
  let '(w, d) := Computed.computed [dollar_state c1; dollar_state c2] add w in
  (d, set c2 (VNum 4) (set c1 (VNum 3) w)).

(** A server that answers every request with 404. *)
Definition response_404 : Async.Response :=
  Async.mkResponse 404 "Not Found" (Resolved VNull).

Definition not_found : string -> Async.RequestInit -> Async.fetched :=
  fun _ _ => Async.Answered response_404.

(** [handle = fetchState("/missing"); handle.execute()], the call pending. *)
Definition missing_page : Async.AsyncStateInstance * World :=
  let '(w, h) := Async.fetchState not_found "/missing" [] Engine.empty in
  Async.execute VUndefined h w.

End Scenarios.

(** ** Histories of an async handle *)

Module AsyncTrace.
Import Engine Effect StateCell Async.

(** What happens to a handle between its construction and an observation:
    [execute] is called, or a call in flight settles. *)
Inductive event : Type :=
  | Execute (params : value)
  | Settle (order : delivery) (k : nat).

Definition step (e : event) (hw : AsyncStateInstance * World)
  : AsyncStateInstance * World :=
  match e with
  | Execute params => execute params hw.1 hw.2
  | Settle order k =>
      match settled order k hw.1 hw.2 with
      | Some (h', w', _) => (h', w')
      | None => hw
      end
  end.

Definition steps (es : list event) (hw : AsyncStateInstance * World)
  : AsyncStateInstance * World :=
  foldl (fun hw' e => step e hw') hw es.

End AsyncTrace.

(** ** Everything a holder can do with an async handle *)

Module AsyncUse.
Import Engine Effect StateCell Async.

(** The three cells of a handle are public members of it. *)
Inductive field : Type :=
  | FData
  | FLoading
  | FError.

Definition cell (f : field) (h : AsyncStateInstance) : StateInstance :=
  match f with
  | FData => data h
  | FLoading => loading h
  | FError => error h
  end.

(** [execute], the settlement of a call in flight, [reset], and the methods
    of the three cells. *)
Inductive use : Type :=
  | DoExecute (params : value)
  | DoSettle (order : delivery) (k : nat)
  | DoResetAll
  | SetCell (f : field) (payload : value)
  | UpdateCell (f : field) (updater : value -> value)
  | ResetCell (f : field)
  | SubscribeCell (f : field)
  | UnsubscribeCell (f : field) (t : nat).

Definition step (u : use) (hw : AsyncStateInstance * World)
  : AsyncStateInstance * World :=
  match u with
  | DoExecute params => execute params hw.1 hw.2
  | DoSettle order k =>
      match settled order k hw.1 hw.2 with
      | Some (h', w', _) => (h', w')
      | None => hw
      end
  | DoResetAll => (hw.1, Async.reset hw.1 hw.2)
  | SetCell f payload => (hw.1, set (cell f hw.1) payload hw.2)
  | UpdateCell f updater => (hw.1, update (cell f hw.1) updater hw.2)
  | ResetCell f => (hw.1, StateCell.reset (cell f hw.1) hw.2)
  | SubscribeCell f => (hw.1, (subscribe (cell f hw.1) hw.2).1)
  | UnsubscribeCell f t => (hw.1, unsubscribe (cell f hw.1) t hw.2)
  end.

Definition steps (us : list use) (hw : AsyncStateInstance * World)
  : AsyncStateInstance * World :=
  foldl (fun hw' u => step u hw') hw us.

(** A cell that holds a value other than [undefined] and whose default
    state is not [undefined] either. *)
Definition defined_cell (c : StateInstance) (w : World) : Prop :=
  is_cell c w
  /\ value_of c w <> VUndefined
  /\ exists d, default_of c w = Some d /\ d <> VUndefined.

End AsyncUse.

(** ** What subscribers observe *)

Module Observers.
Import Engine StateCell Program.

(** Every recorded call went to a subscription that had been handed out. *)
Definition calls_bounded (w : World) : Prop :=
  forall t v, (t, v) ∈ calls w -> t < next_watcher w.

(** A subscription that was handed out and is attached to no store. *)
Definition detached (t : nat) (w : World) : Prop :=
  t < next_watcher w /\ forall i, t ∉ watchers_of i w.

(** The result of one mutation on a value. *)
Definition apply_mutation (m : mutation) (v : value) : value :=
  match m with
  | MSet payload => payload
  | MUpdate updater => updater v
  end.

(** Whether the engine passes on a result [v'] submitted to a store that
    holds [v]: it does unless [v'] is [undefined] or [===] to [v]. *)
Definition passes (v v' : value) : bool :=
  not_undefined v' && negb (strict_eq v v').

(** The values a cell takes, one after the other, when it starts at [v] and
    undergoes [ms]: the results that pass, each mutation being applied to
    the value the cell holds at that moment. *)
Fixpoint observed (v : value) (ms : list mutation) : list value :=
  match ms with
  | [] => []
  | m :: ms' =>
      if passes v (apply_mutation m v)
      then apply_mutation m v :: observed (apply_mutation m v) ms'
      else observed v ms'
  end.

End Observers.

(** ** main.ts: the other members of [State] *)

(** How a synchronous call ends. *)
Inductive completion : Type :=
  | Returns (result : value)
  | Throws (exception : value).

Module MainState.
Import Engine Effect StateCell.

(** [getValue() { const current = $state.getState();
      if (current === null || current === undefined)
        throw new Error("State value is null or undefined");
      return current }] *)
Definition getValue (c : StateInstance) (w : World) : completion :=
  let current := getState (dollar_state c) w in
  if negb (not_null current) || negb (not_undefined current)
  then Throws (VError "State value is null or undefined")
  else Returns current.

(** [getValueOr(defaultValue) { const current = $state.getState();
      return (current !== null && current !== undefined)
        ? current : defaultValue }] *)
Definition getValueOr (c : StateInstance) (defaultValue : value) (w : World)
  : value :=
  let current := getState (dollar_state c) w in
  if not_null current && not_undefined current then current else defaultValue.

(** [createEffect(handler)]: an effect whose [doneData] watcher is
    [(result) => { if (result !== undefined) set(result) }]. *)
Definition createEffect (c : StateInstance) (handler : value -> outcome)
  : Effect :=
  watch_doneData
    (fun result w => if not_undefined result then set c result w else w)
    (Effect.createEffect handler).

(** JavaScript's truthiness, for [!x] and [x || y]. *)
Definition truthy (v : value) : bool :=
  match v with
  | VUndefined | VNull => false
  | VBool b => b
  | VNum n => negb (n =? 0)%Z
  | VStr s => negb (String.eqb s "")
  | VError _ | VObj _ => true
  end.

(** *** toggle *)

(** [toggle(initialValue = false)] is [State<boolean>(initialValue)] with
    three more methods. *)
Definition toggle_new (initialValue : value) (w : World) : World * StateInstance :=
  State (match initialValue with VUndefined => VBool false | v => v end) w.

(** [toggle() { state.update((prev) => !prev) }] *)
Definition toggle (c : StateInstance) (w : World) : World :=
  update c (fun prev => VBool (negb (truthy prev))) w.

(** [setTrue() { state.set(true) }], [setFalse() { state.set(false) }] *)
Definition setTrue (c : StateInstance) (w : World) : World :=
  set c (VBool true) w.

Definition setFalse (c : StateInstance) (w : World) : World :=
  set c (VBool false) w.

End MainState.

(** ** main.ts: validatedState *)

Module Validated.
Import Engine StateCell MainState.

(** The object built by [validatedState]: the cell, the two cells behind
    [isValid] and [validationError], and the validator the closures hold.
    A validator returns a value, read as a condition, or throws. *)
Record ValidatedState : Type := mkValidated {
  state : StateInstance;
  isValidCell : StateInstance;
  validationErrorCell : StateInstance;
  validator : value -> completion
}.

(** [validatedState(initialValue = null, validator)]; the validator is
    applied to the initial value outside any [try], so an exception there
    leaves the constructor. *)
Definition validatedState (initialValue : value) (validator : value -> completion)
  (w : World) : World * (ValidatedState + value) :=
  let initialValue := default_null initialValue in
  let '(w, state) := State initialValue w in
  match validator initialValue with
  | Throws exception => (w, inr exception)
  | Returns valid =>
      let '(w, isValid) := State valid w in
      let '(w, validationError) := State VNull w in
      (w, inl (mkValidated state isValid validationError validator))
  end.

(** [error instanceof Error ? error.message : "Unknown validation error"] *)
Definition validation_message (error : value) : value :=
  match error with
  | VError message => VStr message
  | _ => VStr "Unknown validation error"
  end.

(** [validatedSet(value)]: the overriding [set]. *)
Definition validatedSet (h : ValidatedState) (value : value) (w : World) : World :=
  match validator h value with
  | Returns valid =>
      if truthy valid
      then set (validationErrorCell h) VNull
             (set (isValidCell h) (VBool true) (set (state h) value w))
      else set (validationErrorCell h) (VStr "Validation failed")
             (set (isValidCell h) (VBool false) w)
  | Throws error =>
      set (validationErrorCell h) (validation_message error)
        (set (isValidCell h) (VBool false) w)
  end.

(** [validatedUpdate(updater)]: [validatedSet(updater(state.value))]. *)
Definition validatedUpdate (h : ValidatedState) (updater : value -> value)
  (w : World) : World :=
  validatedSet h (updater (value_of (state h) w)) w.

(** [get isValid() { return isValid.value === true }] *)
Definition isValid (h : ValidatedState) (w : World) : bool :=
  is_true (value_of (isValidCell h) w).

(** [get validationError() { return validationError.value }] *)
Definition validationError (h : ValidatedState) (w : World) : value :=
  value_of (validationErrorCell h) w.

(** The validator lets [v] through. *)
Definition accepts (validator : value -> completion) (v : value) : bool :=
  match validator v with
  | Returns valid => truthy valid
  | Throws _ => false
  end.

(** The calls that go through the object: [set], [update], and [reset],
    which is the cell's own. *)
Inductive call : Type :=
  | CallSet (value : value)
  | CallUpdate (updater : value -> value)
  | CallReset.

Definition perform (h : ValidatedState) (c : call) (w : World) : World :=
  match c with
  | CallSet value => validatedSet h value w
  | CallUpdate updater => validatedUpdate h updater w
  | CallReset => reset (state h) w
  end.

(** The three cells are distinct cells of the world. *)
Definition handle_of (h : ValidatedState) (w : World) : Prop :=
  is_cell (state h) w /\ is_cell (isValidCell h) w
  /\ is_cell (validationErrorCell h) w
  /\ dollar_state (state h) <> dollar_state (isValidCell h)
  /\ dollar_state (state h) <> dollar_state (validationErrorCell h)
  /\ dollar_state (isValidCell h) <> dollar_state (validationErrorCell h).

End Validated.

(** ** main.ts: debouncedState *)

Module Debounced.
Import Engine StateCell Observers.

(** The object built by [debouncedState].  [timeoutId] is the variable of
    that name: [None] for [null], otherwise the timer that is pending,
    given by the value its callback will install. *)
Record DebouncedState : Type := mkDebounced {
  state : StateInstance;
  immediateState : StateInstance;
  timeoutId : option value
}.

(** [debouncedState(initialValue = null, delay = 300)] *)
Definition debouncedState (initialValue : value) (w : World)
  : World * DebouncedState :=
  let initialValue := default_null initialValue in
  let '(w, state) := State initialValue w in
  let '(w, immediateState) := State initialValue w in
  (w, mkDebounced state immediateState None).

(** [debouncedSet(value)]: [immediateState.set(value)], the pending timer
    is cleared and a new one is started. *)
Definition debouncedSet (value : value) (hw : DebouncedState * World)
  : DebouncedState * World :=
  (mkDebounced (state hw.1) (immediateState hw.1) (Some value),
   set (immediateState hw.1) value hw.2).

(** [debouncedUpdate(updater)]:
    [debouncedSet(updater(immediateState.value))]. *)
Definition debouncedUpdate (updater : value -> value)
  (hw : DebouncedState * World) : DebouncedState * World :=
  debouncedSet (updater (value_of (immediateState hw.1) hw.2)) hw.

(** The pending timer fires: [state.set(value); timeoutId = null].  With no
    timer pending nothing runs. *)
Definition timer_fires (hw : DebouncedState * World) : DebouncedState * World :=
  match timeoutId hw.1 with
  | Some value =>
      (mkDebounced (state hw.1) (immediateState hw.1) None,
       set (state hw.1) value hw.2)
  | None => hw
  end.

(** A burst of [set] and [update] calls with no timer firing in between. *)
Definition request (m : mutation) (hw : DebouncedState * World)
  : DebouncedState * World :=
  match m with
  | MSet value => debouncedSet value hw
  | MUpdate updater => debouncedUpdate updater hw
  end.

Definition burst (ms : list mutation) (hw : DebouncedState * World)
  : DebouncedState * World :=
  foldl (fun hw' m => request m hw') hw ms.

Definition handle_of (h : DebouncedState) (w : World) : Prop :=
  is_cell (state h) w /\ is_cell (immediateState h) w
  /\ dollar_state (state h) <> dollar_state (immediateState h).

End Debounced.

(** ** main.ts: collection *)

Module Collection.
Import Engine StateCell MainState.

(** The arrays of the program.  An array is an object: the cell of a
    collection holds a reference to it, and every method below builds a new
    array (spread, [slice], [filter]) instead of changing one in place. *)
Record Memory : Type := mkMemory {
  arrays : gmap nat (list value);
  next_ref : nat
}.

Definition new_array (items : list value) (m : Memory) : Memory * value :=
  (mkMemory (<[next_ref m := items]> (arrays m)) (S (next_ref m)),
   VObj (next_ref m)).

(** The elements of [v || []], for [v] the value of a collection's cell:
    an array or an absence marker. *)
Definition items_of (m : Memory) (v : value) : list value :=
  match v with
  | VObj r => default [] (arrays m !! r)
  | _ => []
  end.

(** [collection(initialItems = [])] is [State<T[]>(initialItems)] with the
    methods below; the default is a new empty array. *)
Definition collection (initialItems : value) (mw : Memory * World)
  : Memory * World * StateInstance :=
  let '(m, initialItems) :=
    match initialItems with
    | VUndefined => new_array [] mw.1
    | given => (mw.1, given)
    end in
  let '(w, c) := State initialItems mw.2 in
  (m, w, c).

(** The current items: [state.value || []]. *)
Definition current (c : StateInstance) (mw : Memory * World) : list value :=
  items_of mw.1 (value_of c mw.2).

(** [state.update((prev) => build(prev || []))], where [build] makes a new
    array: the array is allocated from the value the updater receives. *)
Definition rebuild (c : StateInstance) (build : list value -> list value)
  (mw : Memory * World) : Memory * World :=
  let '(m, arr) := new_array (build (current c mw)) mw.1 in
  (m, update c (fun _ => arr) mw.2).

(** [push(item) { state.update((prev) => [...(prev || []), item]) }] *)
Definition push (c : StateInstance) (item : value) (mw : Memory * World)
  : Memory * World :=
  rebuild c (fun prev => prev ++ [item]) mw.

(** [unshift(item) { state.update((prev) => [item, ...(prev || [])]) }] *)
Definition unshift (c : StateInstance) (item : value) (mw : Memory * World)
  : Memory * World :=
  rebuild c (fun prev => item :: prev) mw.

(** [pop() { const current = state.value || [];
             if (current.length === 0) return undefined;
             const last = current[current.length - 1];
             state.update((prev) => (prev || []).slice(0, -1));
             return last }] *)
Definition pop (c : StateInstance) (mw : Memory * World)
  : Memory * World * value :=
  let items := current c mw in
  if length items =? 0 then (mw, VUndefined)
  else (rebuild c (fun prev => take (length prev - 1) prev) mw,
        default VUndefined (items !! (length items - 1))).

(** [shift()]: the same with [current[0]] and [slice(1)]. *)
Definition shift (c : StateInstance) (mw : Memory * World)
  : Memory * World * value :=
  let items := current c mw in
  if length items =? 0 then (mw, VUndefined)
  else (rebuild c (fun prev => drop 1 prev) mw,
        default VUndefined (items !! 0)).

(** [arr.filter((_, i) => i !== index)], positions counted from [i]. *)
Fixpoint without_index (i : nat) (index : Z) (arr : list value) : list value :=
  match arr with
  | [] => []
  | x :: arr' =>
      if (Z.of_nat i =? index)%Z then without_index (S i) index arr'
      else x :: without_index (S i) index arr'
  end.

(** [removeAt(index)]; [index] is an integer here. *)
Definition removeAt (c : StateInstance) (index : Z) (mw : Memory * World)
  : Memory * World :=
  rebuild c (fun prev => without_index 0 index prev) mw.

(** [updateAt(index, updater)]: [const arr = [...(prev || [])];
    if (index >= 0 && index < arr.length) arr[index] = updater(arr[index]);
    return arr]. *)
Definition updated_at (index : Z) (updater : value -> value) (arr : list value)
  : list value :=
  if ((0 <=? index) && (index <? Z.of_nat (length arr)))%Z
  then match arr !! Z.to_nat index with
       | Some x => <[Z.to_nat index := updater x]> arr
       | None => arr
       end
  else arr.

Definition updateAt (c : StateInstance) (index : Z) (updater : value -> value)
  (mw : Memory * World) : Memory * World :=
  rebuild c (updated_at index updater) mw.

(** [get length() { return (state.value || []).length }] and
    [get isEmpty() { return this.length === 0 }] *)
Definition length_of (c : StateInstance) (mw : Memory * World) : nat :=
  length (current c mw).

Definition isEmpty (c : StateInstance) (mw : Memory * World) : bool :=
  length_of c mw =? 0.

(** The references handed out so far are below [next_ref]. *)
Definition memory_ok (m : Memory) : Prop :=
  forall r items, arrays m !! r = Some items -> r < next_ref m.

End Collection.

(** ** main.ts: form *)

Module Form.
Import Engine StateCell MainState.

(** The plain objects of the program ([values], [errors], what a validator
    returns), each with its own properties.  Spreading builds a new object. *)
Record Objects : Type := mkObjects {
  objects : gmap nat (gmap string value);
  next_object : nat
}.

Definition new_object (fields : gmap string value) (m : Objects)
  : Objects * value :=
  (mkObjects (<[next_object m := fields]> (objects m)) (S (next_object m)),
   VObj (next_object m)).

(** The properties of [v || {}], for [v] the value of one of the form's
    cells: an object or an absence marker. *)
Definition fields_of (m : Objects) (v : value) : gmap string value :=
  match v with
  | VObj r => default ∅ (objects m !! r)
  | _ => ∅
  end.

Record FormInstance : Type := mkForm {
  values : StateInstance;
  errors : StateInstance;
  isSubmitting : StateInstance;
  initialValues : value
}.

(** [form(initialValues)]: [State<T>(initialValues)], [State({})],
    [State<boolean>(false)]. *)
Definition form (initialValues : value) (mw : Objects * World)
  : Objects * World * FormInstance :=
  let '(w, values) := State initialValues mw.2 in
  let '(m, empty) := new_object ∅ mw.1 in
  let '(w, errors) := State empty w in
  let '(w, isSubmitting) := State (VBool false) w in
  (m, w, mkForm values errors isSubmitting initialValues).

(** [cell.update((prev) => build(prev || {}))], where [build] makes a new
    object. *)
Definition rebuild (c : StateInstance)
  (build : gmap string value -> gmap string value) (mw : Objects * World)
  : Objects * World :=
  let '(m, obj) := new_object (build (fields_of mw.1 (value_of c mw.2))) mw.1 in
  (m, update c (fun _ => obj) mw.2).

(** [setField(field, value) {
      values.update((prev) => ({ ...(prev || {}), [field]: value })) }] *)
Definition setField (f : FormInstance) (field : string) (value : value)
  (mw : Objects * World) : Objects * World :=
  rebuild (values f) (fun prev => <[field := value]> prev) mw.

(** [setFieldError(field, error)]: a copy of [prev || {}] in which [field]
    is deleted when [error === null] and set to [error] otherwise. *)
Definition setFieldError (f : FormInstance) (field : string) (error : value)
  (mw : Objects * World) : Objects * World :=
  rebuild (errors f)
    (fun prev => if not_null error then <[field := error]> prev
                 else delete field prev) mw.

(** [clearErrors() { errors.set({}) }] *)
Definition clearErrors (f : FormInstance) (mw : Objects * World)
  : Objects * World :=
  let '(m, empty) := new_object ∅ mw.1 in
  (m, set (errors f) empty mw.2).

(** [Object.keys(x).length === 0] *)
Definition no_keys (fields : gmap string value) : bool :=
  bool_decide (fields = ∅).

(** [validate(validator) { const currentValues = values.getValue();
      const validationErrors = validator(currentValues);
      errors.set(validationErrors);
      return Object.keys(validationErrors).length === 0 }].
    The validator reads the properties of the values and returns a new
    object; [getValue] throws when the values are absent. *)
Definition validate (f : FormInstance)
  (validator : gmap string value -> gmap string value) (mw : Objects * World)
  : Objects * World * completion :=
  match getValue (values f) mw.2 with
  | Throws exception => (mw, Throws exception)
  | Returns currentValues =>
      let '(m, validationErrors) :=
        new_object (validator (fields_of mw.1 currentValues)) mw.1 in
      (m, set (errors f) validationErrors mw.2,
       Returns (VBool (no_keys (validator (fields_of mw.1 currentValues)))))
  end.

(** [reset() { values.set(initialValues); errors.set({});
               isSubmitting.set(false) }] *)
Definition reset (f : FormInstance) (mw : Objects * World) : Objects * World :=
  let '(m, empty) := new_object ∅ mw.1 in
  (m, set (isSubmitting f) (VBool false)
        (set (errors f) empty (set (values f) (initialValues f) mw.2))).

(** [get isValid() { const currentErrors = errors.value || {};
                     return Object.keys(currentErrors).length === 0 }] *)
Definition isValid (f : FormInstance) (mw : Objects * World) : bool :=
  no_keys (fields_of mw.1 (value_of (errors f) mw.2)).

(** The fields and the errors as the form shows them. *)
Definition current_values (f : FormInstance) (mw : Objects * World)
  : gmap string value :=
  fields_of mw.1 (value_of (values f) mw.2).

Definition current_errors (f : FormInstance) (mw : Objects * World)
  : gmap string value :=
  fields_of mw.1 (value_of (errors f) mw.2).

(** The three cells are distinct cells of the world, and the objects they
    refer to have been allocated. *)
Definition handle_of (f : FormInstance) (mw : Objects * World) : Prop :=
  is_cell (values f) mw.2 /\ is_cell (errors f) mw.2
  /\ is_cell (isSubmitting f) mw.2
  /\ dollar_state (values f) <> dollar_state (errors f)
  /\ dollar_state (values f) <> dollar_state (isSubmitting f)
  /\ dollar_state (errors f) <> dollar_state (isSubmitting f)
  /\ (forall r, value_of (values f) mw.2 = VObj r -> r < next_object mw.1)
  /\ (forall r, value_of (errors f) mw.2 = VObj r -> r < next_object mw.1).

End Form.

(** ** Scenarios for main.ts *)

Module MainScenarios.
Import Engine StateCell.

(** A validator that lets the numbers from zero on through, turns the
    other numbers down and throws on anything else. *)
Definition natural : value -> completion :=
  fun v =>
    match v with
    | VNum n => Returns (VBool (0 <=? n)%Z)
    | _ => Throws (VError "not a number")
    end.

(** [validatedState(1, natural)] *)
Definition validated_one : World * (Validated.ValidatedState + value) :=
  Validated.validatedState (VNum 1) natural Engine.empty.

Definition validated_one_handle : Validated.ValidatedState :=
  Validated.mkValidated (mkState 0) (mkState 1) (mkState 2) natural.

(** [debouncedState(0)] *)
Definition debounced_zero : Debounced.DebouncedState * World :=
  let '(w, h) := Debounced.debouncedState (VNum 0) Engine.empty in (h, w).

(** [collection([1, 2])], the literal being the array at reference 0. *)
Definition one_two : Collection.Memory * World :=
  (Collection.collection (VObj 0)
     (Collection.mkMemory {[0 := [VNum 1; VNum 2]]} 1, Engine.empty)).1.

(** [handle = asyncState(boom); handle.execute()] against [main.ts], the
    call pending. *)
Definition main_failing_call : Main.AsyncState * World :=
  let '(w, h) := Main.asyncState Scenarios.boom VUndefined Engine.empty in
  Main.execute VUndefined h w.

(** [form({ email: "", password: "" })], the literal being the object at
    reference 0. *)
Definition login_form : Form.Objects * World * Form.FormInstance :=
  Form.form (VObj 0)
    (Form.mkObjects {[0 := {["email" := VStr ""; "password" := VStr ""]}]} 1,
     Engine.empty).

End MainScenarios.

(** ** Properties of the engine's update step *)

Module EngineFacts.
Import Engine.

Lemma stores_notify i w : stores (notify i w) = stores w.
Proof. unfold notify. destruct (stores w !! i); reflexivity. Qed.

Lemma next_store_notify i w : next_store (notify i w) = next_store w.
Proof. unfold notify. destruct (stores w !! i); reflexivity. Qed.

Lemma next_store_write i v w : next_store (write i v w) = next_store w.
Proof. unfold write. destruct (stores w !! i); reflexivity. Qed.

Lemma lookup_write_ne i k v w :
  k ≠ i -> stores (write i v w) !! k = stores w !! k.
Proof.
  intros Hne. unfold write. destruct (stores w !! i) eqn:E; [|done].
  simpl. by rewrite lookup_insert_ne.
Qed.

Lemma lookup_write_eq i v w s :
  stores w !! i = Some s ->
  stores (write i v w) !! i
  = Some (mkStore (kind s) (defaultState s) v (watchers s)).
Proof.
  intros E. unfold write. rewrite E. simpl. by rewrite lookup_insert_eq.
Qed.

Lemma getState_notify i k w : getState k (notify i w) = getState k w.
Proof. unfold getState. by rewrite stores_notify. Qed.

Lemma strict_eq_sound a b : strict_eq a b = true -> a = b.
Proof.
  destruct a, b; simpl; intros H; try discriminate; try done;
    by apply bool_decide_eq_true_1 in H.
Qed.





Lemma accepted_defined current v : v <> VUndefined -> accepted current v = v.
Proof. by destruct v. Qed.

Lemma not_undefined_true v : v <> VUndefined -> not_undefined v = true.
Proof. by destruct v. Qed.

Lemma default_null_defined arg : default_null arg <> VUndefined.
Proof. by destruct arg. Qed.

Lemma accepted_keeps_defined current v :
  current <> VUndefined -> accepted current v <> VUndefined.
Proof. by destruct v. Qed.

Lemma accepted_case current v :
  accepted current v = match v with VUndefined => current | _ => v end.
Proof. by destruct v. Qed.

(** Propagation only touches the derived stores it visits. *)
Lemma refresh_lookup_notin ids : forall dirty w k,
  k ∉ ids -> stores (refresh ids dirty w) !! k = stores w !! k.
Proof.
  induction ids as [|j ids IH]; intros dirty w k Hk; [done|].
  apply not_elem_of_cons in Hk as [Hkj Hk]. simpl.
  destruct (stores w !! j) as [[[|srcs fn] d c ws]|] eqn:E; try by apply IH.
  destruct (existsb _ srcs); [|by apply IH].
  destruct (strict_eq c _); [by apply IH|].
  rewrite IH by done. rewrite stores_notify. by apply lookup_write_ne.
Qed.

Lemma refresh_lookup_base ids : forall dirty w k s,
  stores w !! k = Some s -> kind s = Base ->
  stores (refresh ids dirty w) !! k = Some s.
Proof.
  induction ids as [|j ids IH]; intros dirty w k s Hs Hb; [done|].
  simpl.
  destruct (stores w !! j) as [[[|srcs fn] d c ws]|] eqn:E; try by apply IH.
  destruct (existsb _ srcs); [|by apply IH].
  destruct (strict_eq c _); [by apply IH|].
  apply IH; [|done]. rewrite stores_notify.
  destruct (decide (k = j)) as [->|Hne].
  - rewrite E in Hs. by simplify_eq.
  - by rewrite lookup_write_ne.
Qed.

Lemma next_store_refresh ids : forall dirty w,
  next_store (refresh ids dirty w) = next_store w.
Proof.
  induction ids as [|j ids IH]; intros dirty w; [done|]. simpl.
  destruct (stores w !! j) as [[[|srcs fn] d c ws]|]; try by apply IH.
  destruct (existsb _ srcs); [|by apply IH].
  destruct (strict_eq c _); [by apply IH|].
  by rewrite IH, next_store_notify, next_store_write.
Qed.

(** An update to the state a store already holds changes nothing. *)
Lemma install_same i v w :
  strict_eq (getState i w) v = true -> install i v w = w.
Proof. intros H. unfold install. by rewrite H. Qed.

(** An update to [undefined] changes nothing. *)
Lemma commit_undefined i w : commit i VUndefined w = w.
Proof. reflexivity. Qed.

Lemma commit_same i v w :
  strict_eq (getState i w) v = true -> commit i v w = w.
Proof.
  intros H. unfold commit. destruct (not_undefined v); [|done].
  by apply install_same.
Qed.

Lemma install_lookup_self i v w s :
  stores w !! i = Some s ->
  stores (install i v w) !! i
  = Some (mkStore (kind s) (defaultState s) v (watchers s)).
Proof.
  intros E. unfold install.
  destruct (strict_eq (getState i w) v) eqn:Heq.
  - apply strict_eq_sound in Heq. unfold getState in Heq. rewrite E in Heq.
    rewrite E. subst v. by destruct s.
  - rewrite refresh_lookup_notin.
    + rewrite stores_notify. by apply lookup_write_eq.
    + rewrite elem_of_seq. lia.
Qed.

Lemma commit_lookup_self i v w s :
  stores w !! i = Some s ->
  stores (commit i v w) !! i
  = Some (mkStore (kind s) (defaultState s) (accepted (currentState s) v)
                  (watchers s)).
Proof.
  intros E. unfold commit, accepted. destruct (not_undefined v).
  - by apply install_lookup_self.
  - rewrite E. by destruct s.
Qed.

Lemma install_lookup_base i k v w s :
  k ≠ i -> stores w !! k = Some s -> kind s = Base ->
  stores (install i v w) !! k = Some s.
Proof.
  intros Hne E Hb. unfold install.
  destruct (strict_eq (getState i w) v); [done|].
  apply refresh_lookup_base; [|done].
  rewrite stores_notify. by rewrite lookup_write_ne.
Qed.

Lemma commit_lookup_base i k v w s :
  k ≠ i -> stores w !! k = Some s -> kind s = Base ->
  stores (commit i v w) !! k = Some s.
Proof.
  intros Hne E Hb. unfold commit. destruct (not_undefined v); [|done].
  by apply install_lookup_base.
Qed.

Lemma next_store_install i v w : next_store (install i v w) = next_store w.
Proof.
  unfold install. destruct (strict_eq (getState i w) v); [done|].
  by rewrite next_store_refresh, next_store_notify, next_store_write.
Qed.

Lemma next_store_commit i v w : next_store (commit i v w) = next_store w.
Proof.
  unfold commit. destruct (not_undefined v); [|done].
  apply next_store_install.
Qed.

Lemma getState_install_self i v w :
  is_Some (stores w !! i) -> getState i (install i v w) = v.
Proof.
  intros [s E]. unfold getState. by rewrite (install_lookup_self _ _ _ _ E).
Qed.

Lemma getState_commit_self i v w :
  is_Some (stores w !! i) ->
  getState i (commit i v w) = accepted (getState i w) v.
Proof.
  intros [s E]. unfold getState.
  by rewrite (commit_lookup_self _ _ _ _ E), E.
Qed.

End EngineFacts.

(** ** Cells: reading after writing *)

Module CellFacts.
Import Engine EngineFacts StateCell.

Lemma is_cell_on c c' reducer w :
  is_cell c' w -> is_cell c' (on (dollar_state c) reducer w).
Proof.
  intros (s & Hs & Hb). unfold on.
  destruct (stores w !! dollar_state c) as [sc|] eqn:E; [|by exists s].
  destruct (decide (dollar_state c' = dollar_state c)) as [Heq|Hne].
  - unfold is_cell. rewrite Heq in Hs |- *. simplify_eq.
    eexists. split; [by apply commit_lookup_self|done].
  - exists s. split; [by apply commit_lookup_base|done].
Qed.

Lemma is_cell_set c c' v w : is_cell c' w -> is_cell c' (set c v w).
Proof. apply is_cell_on. Qed.

Lemma value_on_self c reducer w :
  is_cell c w ->
  value_of c (on (dollar_state c) reducer w)
  = accepted (value_of c w) (reducer (value_of c w)).
Proof.
  intros (s & Hs & _). unfold value_of, on.
  rewrite Hs. rewrite getState_commit_self by by rewrite Hs.
  unfold getState. by rewrite Hs.
Qed.

Lemma value_on_other c c' reducer w :
  is_cell c' w -> dollar_state c' ≠ dollar_state c ->
  value_of c' (on (dollar_state c) reducer w) = value_of c' w.
Proof.
  intros (s & Hs & Hb) Hne. unfold value_of, on.
  destruct (stores w !! dollar_state c) as [sc|] eqn:E; [|done].
  unfold getState. by rewrite (commit_lookup_base _ _ _ _ _ Hne Hs Hb), Hs.
Qed.

Lemma value_set_self c v w :
  is_cell c w -> value_of c (set c v w) = accepted (value_of c w) v.
Proof. intros H. unfold set. by rewrite value_on_self. Qed.

Lemma value_set_other c c' v w :
  is_cell c' w -> dollar_state c' ≠ dollar_state c ->
  value_of c' (set c v w) = value_of c' w.
Proof. apply value_on_other. Qed.

Lemma value_update_self c updater w :
  is_cell c w ->
  value_of c (update c updater w)
  = accepted (value_of c w) (updater (value_of c w)).
Proof. intros H. unfold update. by rewrite value_on_self. Qed.

Lemma default_on c reducer w :
  default_of c (on (dollar_state c) reducer w) = default_of c w.
Proof.
  unfold default_of, on.
  destruct (stores w !! dollar_state c) as [s|] eqn:E; [|by rewrite E].
  by rewrite (commit_lookup_self _ _ _ _ E).
Qed.

Lemma value_reset c w d :
  default_of c w = Some d -> value_of c (reset c w) = d.
Proof.
  unfold default_of, value_of, reset, Engine.reset. intros H.
  destruct (stores w !! dollar_state c) as [s|] eqn:E; [|done].
  simpl in H. simplify_eq. apply getState_install_self. by rewrite E.
Qed.

Lemma default_on_any c c' reducer w :
  is_cell c' w ->
  default_of c' (on (dollar_state c) reducer w) = default_of c' w.
Proof.
  intros (s & Hs & Hb).
  destruct (decide (dollar_state c' = dollar_state c)) as [Heq|Hne].
  - unfold default_of. rewrite Heq. apply default_on.
  - unfold default_of, on.
    destruct (stores w !! dollar_state c) as [sc|]; [|done].
    by rewrite (commit_lookup_base _ _ _ _ _ Hne Hs Hb), Hs.
Qed.

Lemma is_cell_reset c c' w : is_cell c' w -> is_cell c' (reset c w).
Proof.
  intros (s & Hs & Hb). unfold reset, Engine.reset.
  destruct (stores w !! dollar_state c) as [sc|] eqn:E; [|by exists s].
  destruct (decide (dollar_state c' = dollar_state c)) as [Heq|Hne].
  - unfold is_cell. rewrite Heq in Hs |- *. simplify_eq.
    eexists. split; [by apply install_lookup_self|done].
  - exists s. split; [by apply install_lookup_base|done].
Qed.

Lemma value_reset_other c c' w :
  is_cell c' w -> dollar_state c' ≠ dollar_state c ->
  value_of c' (reset c w) = value_of c' w.
Proof.
  intros (s & Hs & Hb) Hne. unfold value_of, reset, Engine.reset.
  destruct (stores w !! dollar_state c) as [sc|]; [|done].
  unfold getState. by rewrite (install_lookup_base _ _ _ _ _ Hne Hs Hb), Hs.
Qed.

Lemma default_reset c w : default_of c (reset c w) = default_of c w.
Proof.
  unfold default_of, reset, Engine.reset.
  destruct (stores w !! dollar_state c) as [s|] eqn:E; [|by rewrite E].
  by rewrite (install_lookup_self _ _ _ _ E).
Qed.

Lemma is_cell_watch c c' w : is_cell c' w -> is_cell c' (subscribe c w).1.
Proof.
  intros (s & Hs & Hb). unfold subscribe, watch.
  destruct (stores w !! dollar_state c) as [sc|] eqn:E; [|by exists s].
  unfold is_cell. simpl.
  destruct (decide (dollar_state c' = dollar_state c)) as [Heq|Hne].
  - rewrite Heq in Hs |- *. simplify_eq. rewrite lookup_insert_eq. by eexists.
  - rewrite lookup_insert_ne by done. by exists s.
Qed.

Lemma is_cell_unwatch c c' t w :
  is_cell c' w -> is_cell c' (unsubscribe c t w).
Proof.
  intros (s & Hs & Hb). unfold unsubscribe, unwatch.
  destruct (stores w !! dollar_state c) as [sc|] eqn:E; [|by exists s].
  unfold is_cell. simpl.
  destruct (decide (dollar_state c' = dollar_state c)) as [Heq|Hne].
  - rewrite Heq in Hs |- *. simplify_eq. rewrite lookup_insert_eq. by eexists.
  - rewrite lookup_insert_ne by done. by exists s.
Qed.

(** Subscribing and unsubscribing leave every state and default state as
    it is. *)
Lemma store_watch c k w :
  (currentState <$> (stores (subscribe c w).1 !! k)
   = currentState <$> (stores w !! k))
  /\ (defaultState <$> (stores (subscribe c w).1 !! k)
      = defaultState <$> (stores w !! k)).
Proof.
  unfold subscribe, watch.
  destruct (stores w !! dollar_state c) as [sc|] eqn:E; [|done]. simpl.
  destruct (decide (k = dollar_state c)) as [->|Hne].
  - by rewrite lookup_insert_eq, E.
  - by rewrite lookup_insert_ne.
Qed.

Lemma store_unwatch c t k w :
  (currentState <$> (stores (unsubscribe c t w) !! k)
   = currentState <$> (stores w !! k))
  /\ (defaultState <$> (stores (unsubscribe c t w) !! k)
      = defaultState <$> (stores w !! k)).
Proof.
  unfold unsubscribe, unwatch.
  destruct (stores w !! dollar_state c) as [sc|] eqn:E; [|done]. simpl.
  destruct (decide (k = dollar_state c)) as [->|Hne].
  - by rewrite lookup_insert_eq, E.
  - by rewrite lookup_insert_ne.
Qed.

Lemma State_is_cell v0 w :
  is_cell (State v0 w).2 (State v0 w).1.
Proof.
  unfold State, createStore, alloc, is_cell. simpl.
  eexists. split; [by rewrite lookup_insert_eq|done].
Qed.

Lemma State_initial v0 w :
  value_of (State v0 w).2 (State v0 w).1 = default_null v0
  /\ default_of (State v0 w).2 (State v0 w).1 = Some (default_null v0).
Proof.
  unfold State, createStore, alloc, value_of, default_of, getState. simpl.
  by rewrite lookup_insert_eq.
Qed.

End CellFacts.

(** ** src/async.ts: the life cycle of a call *)

Module AsyncFacts.
Import Engine Effect EngineFacts StateCell CellFacts Async.

Lemma asyncState_handle_of handler init w :
  handle_of (asyncState handler init w).2 (asyncState handler init w).1.
Proof.
  unfold asyncState, State, createStore, alloc, watch_pending. simpl.
  split; [done|].
  repeat split; try (simpl; lia); apply is_cell_set; unfold is_cell; simpl;
    eexists; (split; [|shelve]).
  - rewrite lookup_insert_ne by lia. rewrite lookup_insert_ne by lia.
    by rewrite lookup_insert_eq.
  - rewrite lookup_insert_ne by lia. by rewrite lookup_insert_eq.
  - by rewrite lookup_insert_eq.
  Unshelve. all: done.
Qed.

Lemma handle_of_set h c v w : handle_of h w -> handle_of h (set c v w).
Proof.
  intros (Hw & Hd & Hl & He & Hne). unfold handle_of.
  split; [exact Hw|].
  split; [by apply is_cell_set|]. split; [by apply is_cell_set|].
  split; [by apply is_cell_set|exact Hne].
Qed.

(** Reading a cell after a chain of [set]s on cells of the world. *)
Ltac read_cells :=
  repeat first
    [ rewrite value_set_self by (repeat apply is_cell_set; assumption)
    | rewrite value_set_other
        by first [ repeat apply is_cell_set; assumption | congruence ] ].

Lemma pending_after_call (rs : list outcome) (o : outcome) :
  bool_decide (rs ++ [o] = []) = false.
Proof.
  apply bool_decide_eq_false_2. intros H. by apply app_eq_nil in H as [_ ?].
Qed.

(** What [execute] does before the handler's promise settles: [pending]
    becomes true, and its watcher runs, when no other call is in flight. *)
Lemma execute_spec params h w :
  handle_of h w ->
  execute params h w
  = (with_fx (with_running (running (fx h) ++ [handler (fx h) params]) (fx h)) h,
     if bool_decide (running (fx h) = [])
     then set (loading h) (VBool true) w else w).
Proof.
  intros ((Hp & _) & _).
  unfold execute, call, update_pending, run_watchers, pending. simpl.
  rewrite Hp, pending_after_call. simpl.
  by destruct (bool_decide (running (fx h) = [])).
Qed.

Lemma handle_of_execute params h w :
  handle_of h w -> handle_of (execute params h w).1 (execute params h w).2.
Proof.
  intros Hh. rewrite (execute_spec _ _ _ Hh). simpl.
  destruct (bool_decide (running (fx h) = [])); [by apply handle_of_set|done].
Qed.

(** What the settlement of a call does, for either order of delivery. *)
Lemma settled_spec order k h w o :
  handle_of h w -> running (fx h) !! k = Some o ->
  exists w',
    settled order k h w
    = Some (with_fx (with_running (delete k (running (fx h))) (fx h)) h, w', o)
    /\ handle_of h w'
    /\ value_of (loading h) w'
       = (if bool_decide (delete k (running (fx h)) = []) then VBool false
          else value_of (loading h) w)
    /\ value_of (data h) w'
       = match o with
         | Resolved v => accepted (value_of (data h) w) v
         | Rejected _ => value_of (data h) w
         end
    /\ value_of (error h) w'
       = match o with
         | Resolved _ => VNull
         | Rejected r => accepted (value_of (error h) w) r
         end.
Proof.
  intros Hh Hk. pose proof Hh as ((Hp & Hd & Hf & Hfin) & Hcd & Hcl & Hce & N1 & N2 & N3).
  unfold settled, settle. rewrite Hk.
  eexists. split; [reflexivity|].
  assert (bool_decide (running (fx h) = []) = false) as Hrun.
  { apply bool_decide_eq_false_2. intros H. by rewrite H in Hk. }
  unfold deliver_result, deliver_finally, update_pending, run_watchers, pending.
  simpl. rewrite Hp, Hd, Hf, Hfin, Hrun.
  destruct order, o, (bool_decide (delete k (running (fx h)) = [])); simpl;
    (split; [repeat apply handle_of_set; exact Hh|]);
    repeat split; read_cells; reflexivity.
Qed.

End AsyncFacts.

(** ** main.ts: the life cycle of a call *)

Module MainFacts.
Import Engine Effect EngineFacts StateCell CellFacts Main.

Lemma main_asyncState_handle_of handler init w :
  handle_of (asyncState handler init w).2 (asyncState handler init w).1.
Proof.
  unfold asyncState, State, createStore, alloc. simpl.
  split; [done|].
  repeat split; try (simpl; lia); unfold is_cell; simpl;
    eexists; (split; [|shelve]).
  - rewrite lookup_insert_ne by lia. rewrite lookup_insert_ne by lia.
    by rewrite lookup_insert_eq.
  - rewrite lookup_insert_ne by lia. by rewrite lookup_insert_eq.
  - by rewrite lookup_insert_eq.
  Unshelve. all: done.
Qed.

Lemma main_handle_of_set h c v w : handle_of h w -> handle_of h (set c v w).
Proof.
  intros (Hw & Hd & Hl & He & Hne). unfold handle_of.
  split; [exact Hw|].
  split; [by apply is_cell_set|]. split; [by apply is_cell_set|].
  split; [by apply is_cell_set|exact Hne].
Qed.

Lemma update_pending_unwatched before fx w :
  pending_watchers fx = [] -> update_pending before fx w = w.
Proof.
  intros H. unfold update_pending, run_watchers. rewrite H.
  by destruct (strict_eq before (pending fx)).
Qed.

(** No watcher of [main.ts] runs when the effect is called: the world is
    the same after [execute]. *)
Lemma main_execute_spec params h w :
  handle_of h w ->
  execute params h w
  = (with_effect
       (with_running (running (effect h) ++ [handler (effect h) params]) (effect h)) h,
     w).
Proof.
  intros ((Hp & _) & _). unfold execute, call. simpl.
  by rewrite update_pending_unwatched.
Qed.

Lemma main_settled_spec order k h w o :
  handle_of h w -> running (effect h) !! k = Some o ->
  exists w',
    settled order k h w
    = Some (with_effect (with_running (delete k (running (effect h))) (effect h)) h,
            w', o)
    /\ handle_of h w'
    /\ value_of (loading h) w'
       = match o, order with
         | Resolved _, FinallyFirst => VBool true
         | _, _ => VBool false
         end
    /\ value_of (data h) w'
       = match o with
         | Resolved v => accepted (value_of (data h) w) v
         | Rejected _ => value_of (data h) w
         end
    /\ value_of (error h) w'
       = match o with
         | Resolved _ => VNull
         | Rejected r => accepted (value_of (error h) w) r
         end.
Proof.
  intros Hh Hk.
  pose proof Hh as ((Hp & Hd & Hf & Hfin) & Hcd & Hcl & Hce & N1 & N2 & N3).
  unfold settled, settle. rewrite Hk.
  eexists. split; [reflexivity|].
  unfold deliver_result, deliver_finally.
  rewrite !update_pending_unwatched by done.
  unfold run_watchers. simpl. rewrite Hd, Hf, Hfin.
  destruct order, o; simpl;
    (split; [repeat apply main_handle_of_set; exact Hh|]);
    repeat split; AsyncFacts.read_cells; reflexivity.
Qed.

End MainFacts.

(** ** Claims on the async handle *)

Module AsyncClaims.
Import Engine Effect EngineFacts StateCell CellFacts Async AsyncFacts.

(** Concrete handles: every component of [handle_of] is decided by
    evaluation. *)
Ltac handle_by_evaluation :=
  repeat split;
  first [ reflexivity
        | eexists; split; vm_compute; reflexivity
        | vm_compute; discriminate ].

(** C1, as corrected: when the handler's promise of a call resolves with [v],
    the settlement leaves [v] in the data cell, unless [v] is [undefined], in
    which case the data cell keeps what it held; it leaves [null] in the
    error cell; and the loading cell holds [false] provided no other call of
    the handle is still in flight. *)
Theorem success_settles order k h w v :
  handle_of h w ->
  running (fx h) !! k = Some (Resolved v) ->
  exists h' w',
    settled order k h w = Some (h', w', Resolved v)
    /\ value_of (data h') w'
       = match v with VUndefined => value_of (data h) w | _ => v end
    /\ value_of (error h') w' = VNull
    /\ (delete k (running (fx h)) = [] -> value_of (loading h') w' = VBool false).
Proof.
  intros Hh Hk.
  destruct (settled_spec order k h w _ Hh Hk) as (w' & Hs & _ & Hl & Hd & He).
  eexists _, w'. split; [exact Hs|]. simpl.
  split; [by rewrite <- accepted_case|]. split; [exact He|].
  intros Hnone. rewrite Hl, Hnone. reflexivity.
Qed.

Lemma success_settles_witness :
  exists h' w',
    settled FinallyFirst 0 Scenarios.one_call.1 Scenarios.one_call.2
    = Some (h', w', Resolved (VNum 42))
    /\ value_of (data h') w' = VNum 42
    /\ value_of (error h') w' = VNull
    /\ (delete 0 (running (fx Scenarios.one_call.1)) = [] ->
        value_of (loading h') w' = VBool false).
Proof.
  apply (success_settles FinallyFirst 0 Scenarios.one_call.1
           Scenarios.one_call.2 (VNum 42)).
  - handle_by_evaluation.
  - reflexivity.
Defined.

(** C1, as stated, fails: with two calls in flight, the settlement of the
    first leaves the loading cell at [true]. *)
Lemma success_settles_counterexample :
  ~ (forall order k h w h' w' v,
       handle_of h w ->
       settled order k h w = Some (h', w', Resolved v) ->
       value_of (data h') w' = v
       /\ value_of (error h') w' = VNull
       /\ value_of (loading h') w' = VBool false).
Proof.
  intros H.
  assert (handle_of Scenarios.two_calls.1 Scenarios.two_calls.2) as Hh
    by handle_by_evaluation.
  assert (running (fx Scenarios.two_calls.1) !! 0 = Some (Resolved (VNum 42)))
    as Hk by reflexivity.
  destruct (settled_spec FinallyFirst 0 _ _ _ Hh Hk) as (w' & Hs & _ & Hl & _).
  apply (H _ _ _ _ _ _ _ Hh) in Hs as (_ & _ & Hl').
  change (value_of (loading Scenarios.two_calls.1) w' = VBool false) in Hl'.
  rewrite Hl in Hl'. vm_compute in Hl'. discriminate.
Qed.

(** On [main.ts] the loading cell after a success depends on the order in
    which the engine delivers [finally] and [doneData]: the [finally]
    watcher stores [false] and the [doneData] watcher stores [true], so with
    [finally] delivered first the loading cell is left at [true] although
    nothing is in flight. *)
Lemma main_success_settles order k h w v :
  Main.handle_of h w ->
  running (Main.effect h) !! k = Some (Resolved v) ->
  exists h' w',
    Main.settled order k h w = Some (h', w', Resolved v)
    /\ value_of (Main.data h') w'
       = match v with VUndefined => value_of (Main.data h) w | _ => v end
    /\ value_of (Main.error h') w' = VNull
    /\ value_of (Main.loading h') w'
       = match order with FinallyFirst => VBool true | FinallyLast => VBool false end.
Proof.
  intros Hh Hk.
  destruct (MainFacts.main_settled_spec order k h w _ Hh Hk)
    as (w' & Hs & _ & Hl & Hd & He).
  eexists _, w'. split; [exact Hs|]. simpl.
  split; [by rewrite <- accepted_case|]. split; [exact He|].
  by destruct order.
Qed.

(** [handle = asyncState(async () => {}, 7); handle.execute()]: the call
    resolves with [undefined], which the engine does not store; the data
    cell still holds 7 and [hasData] is true. *)
Example undefined_result_keeps_data :
  exists h' w',
    settled FinallyFirst 0 Scenarios.undefined_result.1
      Scenarios.undefined_result.2
    = Some (h', w', Resolved VUndefined)
    /\ value_of (data h') w' = VNum 7
    /\ hasData h' w' = true.
Proof.
  assert (handle_of Scenarios.undefined_result.1 Scenarios.undefined_result.2)
    as Hh by handle_by_evaluation.
  assert (running (fx Scenarios.undefined_result.1) !! 0
          = Some (Resolved VUndefined)) as Hk by reflexivity.
  destruct (settled_spec FinallyFirst 0 _ _ _ Hh Hk)
    as (w' & Hs & _ & _ & Hd & _).
  assert (value_of (data Scenarios.undefined_result.1) w' = VNum 7) as Hv
    by (rewrite Hd; vm_compute; reflexivity).
  eexists _, w'. split; [exact Hs|]. split; [exact Hv|].
  change (hasData Scenarios.undefined_result.1 w' = true).
  unfold hasData. by rewrite Hv.
Qed.

(** C2, as corrected: when the handler's promise of a call rejects with
    reason [r], the promise returned by [execute] rejects with [r], the data
    cell holds what it held just before the settlement, and the error cell
    holds [r], unless [r] is [undefined], in which case the error cell keeps
    what it held. *)
Theorem failure_settles order k h w r :
  handle_of h w ->
  running (fx h) !! k = Some (Rejected r) ->
  exists h' w',
    settled order k h w = Some (h', w', Rejected r)
    /\ value_of (error h') w'
       = match r with VUndefined => value_of (error h) w | _ => r end
    /\ value_of (data h') w' = value_of (data h) w.
Proof.
  intros Hh Hk.
  destruct (settled_spec order k h w _ Hh Hk) as (w' & Hs & _ & _ & Hd & He).
  eexists _, w'. split; [exact Hs|]. simpl.
  split; [by rewrite <- accepted_case|exact Hd].
Qed.

(** C2, as stated, fails: after a handler has rejected with [undefined] the
    error cell holds [null], which it held before, and not the reason. *)
Lemma failure_settles_counterexample :
  ~ (forall order k h w h' w' r,
       handle_of h w ->
       settled order k h w = Some (h', w', Rejected r) ->
       value_of (error h') w' = r
       /\ value_of (data h') w' = value_of (data h) w).
Proof.
  intros H.
  assert (handle_of Scenarios.undefined_rejection.1
            Scenarios.undefined_rejection.2) as Hh by handle_by_evaluation.
  assert (running (fx Scenarios.undefined_rejection.1) !! 0
          = Some (Rejected VUndefined)) as Hk by reflexivity.
  destruct (settled_spec FinallyFirst 0 _ _ _ Hh Hk)
    as (w' & Hs & _ & _ & _ & He).
  apply (H _ _ _ _ _ _ _ Hh) in Hs as (He' & _).
  change (value_of (error Scenarios.undefined_rejection.1) w' = VUndefined)
    in He'.
  rewrite He in He'. vm_compute in He'. discriminate.
Qed.

Lemma failure_settles_witness :
  exists h' w',
    settled FinallyFirst 0 Scenarios.failing_call.1 Scenarios.failing_call.2
    = Some (h', w', Rejected (VError "boom"))
    /\ value_of (error h') w' = VError "boom"
    /\ value_of (data h') w'
       = value_of (data Scenarios.failing_call.1) Scenarios.failing_call.2.
Proof.
  apply (failure_settles FinallyFirst 0 Scenarios.failing_call.1
           Scenarios.failing_call.2 (VError "boom")).
  - handle_by_evaluation.
  - reflexivity.
Defined.

(** The same holds for the handle of [main.ts]. *)
Lemma main_failure_settles order k h w r :
  Main.handle_of h w ->
  running (Main.effect h) !! k = Some (Rejected r) ->
  exists h' w',
    Main.settled order k h w = Some (h', w', Rejected r)
    /\ value_of (Main.error h') w'
       = match r with VUndefined => value_of (Main.error h) w | _ => r end
    /\ value_of (Main.data h') w' = value_of (Main.data h) w.
Proof.
  intros Hh Hk.
  destruct (MainFacts.main_settled_spec order k h w _ Hh Hk)
    as (w' & Hs & _ & _ & Hd & He).
  eexists _, w'. split; [exact Hs|]. simpl.
  split; [by rewrite <- accepted_case|exact Hd].
Qed.

(** The three cells right after construction. *)
Ltac fresh_cell :=
  unfold is_cell; simpl; eexists;
  (split; [repeat (rewrite lookup_insert_ne by lia); by rewrite lookup_insert_eq
          |done]).

Lemma asyncState_initial handler init w :
  let r := asyncState handler init w in
  value_of (data r.2) r.1 = default_null init
  /\ value_of (loading r.2) r.1 = VBool false
  /\ value_of (error r.2) r.1 = VNull.
Proof.
  unfold asyncState, State, createStore, alloc, watch_pending, pending. simpl.
  repeat split.
  - rewrite value_set_other; [|fresh_cell|simpl; lia].
    unfold value_of, getState. simpl.
    repeat (rewrite lookup_insert_ne by lia). rewrite lookup_insert_eq.
    simpl. by destruct init.
  - rewrite value_set_self; [done|fresh_cell].
  - rewrite value_set_other; [|fresh_cell|simpl; lia].
    unfold value_of, getState. simpl. by rewrite lookup_insert_eq.
Qed.

Lemma main_asyncState_initial handler init w :
  let r := Main.asyncState handler init w in
  value_of (Main.data r.2) r.1 = default_null init
  /\ value_of (Main.loading r.2) r.1 = VBool false
  /\ value_of (Main.error r.2) r.1 = VNull.
Proof.
  unfold Main.asyncState, State, createStore, alloc. simpl.
  unfold value_of, getState. simpl.
  repeat split.
  - repeat (rewrite lookup_insert_ne by lia). rewrite lookup_insert_eq.
    simpl. by destruct init.
  - repeat (rewrite lookup_insert_ne by lia). by rewrite lookup_insert_eq.
  - by rewrite lookup_insert_eq.
Qed.

(** C10: right after [asyncState(handler, initialData)] returns, the data
    cell holds [initialData], or [null] when the argument is omitted (as in
    [fetchState] and [mutationState]), the loading cell holds [false] and
    the error cell holds [null]; [isLoading] and [hasError] are false.  The
    handle of [main.ts] starts in the same state. *)
Theorem asyncState_at_construction handler initialData w :
  let r := asyncState handler initialData w in
  value_of (data r.2) r.1
  = match initialData with VUndefined => VNull | given => given end
  /\ value_of (loading r.2) r.1 = VBool false
  /\ value_of (error r.2) r.1 = VNull
  /\ isLoading r.2 r.1 = false
  /\ hasError r.2 r.1 = false
  /\ (forall fetch url options,
        value_of (data (fetchState fetch url options w).2)
                 (fetchState fetch url options w).1 = VNull)
  /\ value_of (data (mutationState handler w).2) (mutationState handler w).1
     = VNull
  /\ (let m := Main.asyncState handler initialData w in
      value_of (Main.data m.2) m.1
      = match initialData with VUndefined => VNull | given => given end
      /\ value_of (Main.loading m.2) m.1 = VBool false
      /\ value_of (Main.error m.2) m.1 = VNull
      /\ Main.isLoading m.2 m.1 = false
      /\ Main.hasError m.2 m.1 = false).
Proof.
  intros r.
  destruct (asyncState_initial handler initialData w) as (Hd & Hl & He).
  destruct (main_asyncState_initial handler initialData w) as (Md & Ml & Me).
  fold r in Hd, Hl, He.
  split; [exact Hd|]. split; [exact Hl|]. split; [exact He|].
  split; [unfold isLoading; by rewrite Hl|].
  split; [unfold hasError; by rewrite He|].
  split; [intros fetch url options;
          apply (asyncState_initial (fetchHandler fetch url options) VUndefined w)|].
  split; [apply (asyncState_initial handler VUndefined w)|].
  intros m. fold m in Md, Ml, Me.
  split; [exact Md|]. split; [exact Ml|]. split; [exact Me|].
  split; [unfold Main.isLoading; by rewrite Ml|].
  unfold Main.hasError, Main.hasValue. unfold value_of in Me. by rewrite Me.
Qed.

(** [src/async.ts] sets the loading cell to [true] when [execute] is
    called, before the handler's promise settles: the first call in flight
    turns [pending] to true, and a further call finds the loading cell at
    [true], where the calls before it have left it. *)
Lemma execute_sets_loading params h w :
  handle_of h w ->
  value_of (loading h) w = pending (fx h) ->
  let r := execute params h w in
  value_of (loading r.1) r.2 = VBool true
  /\ isLoading r.1 r.2 = true
  /\ running (fx r.1) = running (fx h) ++ [handler (fx h) params].
Proof.
  intros Hh Hinv r. subst r. rewrite (execute_spec _ _ _ Hh). simpl.
  destruct Hh as (_ & _ & Hl & _).
  assert (value_of (loading h)
            (if bool_decide (running (fx h) = [])
             then set (loading h) (VBool true) w else w) = VBool true) as Hv.
  { unfold pending in Hinv.
    destruct (bool_decide (running (fx h) = [])); [|exact Hinv].
    by rewrite value_set_self. }
  unfold isLoading. simpl. rewrite Hv. repeat split.
Qed.

(** C3 on [main.ts]: after [handle = asyncState(double);
    handle.execute(21)], with the call still in flight, the loading cell
    holds [false] and [isLoading] is false.  [execute] runs no watcher
    there: [setLoadingTrue] is only called from the [doneData] watcher. *)
Theorem main_loading_not_set_at_start :
  running (Main.effect Scenarios.main_one_call.1) = [Resolved (VNum 42)]
  /\ value_of (Main.loading Scenarios.main_one_call.1) Scenarios.main_one_call.2
     = VBool false
  /\ Main.isLoading Scenarios.main_one_call.1 Scenarios.main_one_call.2 = false.
Proof. repeat split; vm_compute; reflexivity. Qed.

(** In general [execute] of [main.ts] leaves every cell as it was. *)
Lemma main_execute_keeps_world params h w :
  Main.handle_of h w -> (Main.execute params h w).2 = w.
Proof. intros Hh. by rewrite (MainFacts.main_execute_spec _ _ _ Hh). Qed.

(** [hasData] is true exactly when the data cell holds neither absence
    marker; so is [hasError] of [main.ts] for the error cell. *)
Lemma hasData_iff h w :
  hasData h w = true <-> ~ absent (value_of (data h) w).
Proof.
  unfold hasData, absent. destruct (value_of (data h) w); simpl;
    split; intros H; try done; try (intros [?|?]; done); exfalso; apply H; eauto.
Qed.

Lemma main_hasError_iff h w :
  Main.hasError h w = true <-> ~ absent (value_of (Main.error h) w).
Proof.
  unfold Main.hasError, Main.hasValue, absent, value_of.
  destruct (getState _ w); simpl;
    split; intros H; try done; try (intros [?|?]; done); exfalso; apply H; eauto.
Qed.

(** [hasError] of [src/async.ts] only compares with [null]. *)
Lemma hasError_iff h w :
  hasError h w = true <-> value_of (error h) w <> VNull.
Proof.
  unfold hasError. destruct (value_of (error h) w); simpl; split; done.
Qed.

(** [handle.error.set(undefined)] is dropped by the engine: the error cell
    still holds [null] and [hasError] is false. *)
Example error_set_undefined :
  value_of (error Scenarios.error_undefined.1) Scenarios.error_undefined.2
  = VNull
  /\ hasError Scenarios.error_undefined.1 Scenarios.error_undefined.2 = false.
Proof. split; vm_compute; reflexivity. Qed.

(** C9: [mutationState(handler)] is [asyncState(handler)] with the initial
    data left out, which is [asyncState(handler, null)]: the same handle in
    the same world, hence the same result for anything done with it. *)
Theorem mutationState_is_asyncState handler w :
  mutationState handler w = asyncState handler VUndefined w
  /\ mutationState handler w = asyncState handler VNull w
  /\ (forall (A : Type) (observe : World * AsyncStateInstance -> A),
        observe (mutationState handler w)
        = observe (asyncState handler VNull w)).
Proof. repeat split. Qed.

(** *** fetchState *)

Lemma prefix_append sub rest : String.prefix sub (sub +:+ rest) = true.
Proof.
  induction sub as [|a sub IH].
  - by destruct rest.
  - change (String a sub +:+ rest) with (String a (sub +:+ rest)). simpl.
    destruct (Ascii.ascii_dec a a); [exact IH|done].
Qed.

Lemma includes_unfold s sub :
  includes s sub
  = String.prefix sub s
    || match s with EmptyString => false | String _ s' => includes s' sub end.
Proof. by destruct s. Qed.

Lemma includes_here sub rest : includes (sub +:+ rest) sub = true.
Proof. by rewrite includes_unfold, prefix_append. Qed.

Lemma includes_refl sub : includes sub sub = true.
Proof.
  rewrite includes_unfold.
  assert (String.prefix sub sub = true) as ->; [|done].
  induction sub as [|a sub IH]; simpl; [done|].
  destruct (Ascii.ascii_dec a a); [exact IH|done].
Qed.

Lemma includes_skip before s sub :
  includes s sub = true -> includes (before +:+ s) sub = true.
Proof.
  intros H. induction before as [|a before IH]; [exact H|].
  change (String a before +:+ s) with (String a (before +:+ s)).
  rewrite includes_unfold, IH. apply orb_true_r.
Qed.

Lemma http_error_message_includes response :
  includes (http_error_message response) (pretty (status response)) = true
  /\ includes (http_error_message response) (statusText response) = true.
Proof.
  unfold http_error_message. split.
  - apply includes_skip, includes_here.
  - do 3 apply includes_skip. apply includes_refl.
Qed.

Lemma ok_false_iff response :
  ok response = false
  <-> (status response < 200 \/ 299 < status response)%N.
Proof.
  unfold ok. rewrite andb_false_iff, !N.leb_gt. reflexivity.
Qed.

(** C7: a [fetchState] handle whose request is answered with a status
    outside 200..299 settles as a failure, and the error cell then holds an
    error whose message includes the status in decimal and the status text;
    answered with a 2xx status and a body that parses to [body], the call
    resolves with [body], which the data cell then holds.  (A JSON text
    never parses to [undefined]; were [body] [undefined], the data cell
    would keep the [null] it was created with.) *)
Theorem fetch_status_mapping fetch url options w order params response :
  fetch url options = Answered response ->
  let created := fetchState fetch url options w in
  let called := execute params created.2 created.1 in
  ((status response < 200 \/ 299 < status response)%N ->
   exists h' w' message,
     settled order 0 called.1 called.2 = Some (h', w', Rejected (VError message))
     /\ value_of (error h') w' = VError message
     /\ includes message (pretty (status response)) = true
     /\ includes message (statusText response) = true)
  /\ (forall body,
        (200 <= status response <= 299)%N ->
        json response = Resolved body ->
        exists h' w',
          settled order 0 called.1 called.2 = Some (h', w', Resolved body)
          /\ value_of (data h') w'
             = match body with VUndefined => VNull | _ => body end).
Proof.
  intros Hfetch created called.
  assert (handle_of created.2 created.1) as Hh by apply asyncState_handle_of.
  assert (running (fx created.2) = []) as Hrun by reflexivity.
  assert (handler (fx created.2) = fetchHandler fetch url options) as Hhand
    by reflexivity.
  assert (value_of (data created.2) created.1 = VNull) as Hdata
    by apply (asyncState_initial (fetchHandler fetch url options) VUndefined w).
  subst called. rewrite (execute_spec _ _ _ Hh), Hrun, Hhand.
  clearbody created. simpl.
  pose proof (handle_of_set _ (loading created.2) (VBool true) _ Hh) as Hh'.
  split.
  - intros Hst. apply ok_false_iff in Hst.
    assert (fetchHandler fetch url options params
            = Rejected (VError (http_error_message response))) as ->
      by (unfold fetchHandler; by rewrite Hfetch, Hst).
    destruct (settled_spec order 0
                (with_fx (with_running
                            [Rejected (VError (http_error_message response))]
                            (fx created.2)) created.2)
                _ _ Hh' eq_refl) as (w' & Hs & _ & _ & _ & He).
    eexists _, w', (http_error_message response).
    split; [exact Hs|]. split; [exact He|].
    apply http_error_message_includes.
  - intros body Hst Hjson.
    assert (ok response = true) as Hok
      by (unfold ok; apply andb_true_iff; rewrite !N.leb_le; lia).
    assert (fetchHandler fetch url options params = Resolved body) as ->
      by (unfold fetchHandler; by rewrite Hfetch, Hok).
    destruct (settled_spec order 0
                (with_fx (with_running [Resolved body] (fx created.2)) created.2)
                _ _ Hh' eq_refl) as (w' & Hs & _ & _ & Hd & _).
    eexists _, w'. split; [exact Hs|].
    etrans; [exact Hd|]. simpl. rewrite accepted_case.
    rewrite value_set_other; [|apply Hh|apply Hh].
    by rewrite Hdata.
Qed.

Lemma fetch_status_mapping_witness :
  Scenarios.not_found "/missing" [] = Answered Scenarios.response_404
  /\ exists h' w' message,
       settled FinallyFirst 0 Scenarios.missing_page.1 Scenarios.missing_page.2
       = Some (h', w', Rejected (VError message))
       /\ value_of (error h') w' = VError message
       /\ includes message "404" = true
       /\ includes message "Not Found" = true.
Proof.
  split; [reflexivity|].
  apply (fetch_status_mapping Scenarios.not_found "/missing" [] Engine.empty
           FinallyFirst VUndefined Scenarios.response_404 eq_refl).
  right. reflexivity.
Defined.

End AsyncClaims.

(** ** Claims on cells *)

Module CellClaims.
Import Engine EngineFacts StateCell CellFacts.

Lemma default_mutate c m w : default_of c (mutate c m w) = default_of c w.
Proof. destruct m; apply default_on. Qed.

Lemma default_mutations c ms : forall w,
  default_of c (foldl (fun w' m => mutate c m w') w ms) = default_of c w.
Proof.
  induction ms as [|m ms IH]; intros w; simpl; [done|].
  by rewrite IH, default_mutate.
Qed.

(** C5: after any finite sequence of [set] and [update] calls on a cell,
    [reset()] leaves the value captured at construction in it: the initial
    value [v0] that was passed, [null] when none was. *)
Theorem reset_restores_initial v0 w (ms : list mutation) :
  let c := (State v0 w).2 in
  let w' := foldl (fun w' m => mutate c m w') (State v0 w).1 ms in
  value_of c (reset c w') = value_of c (State v0 w).1
  /\ value_of c (reset c w')
     = match v0 with VUndefined => VNull | given => given end.
Proof.
  intros c w'. destruct (State_initial v0 w) as [Hv Hd].
  assert (value_of c (reset c w') = default_null v0) as Hr.
  { apply value_reset. subst w'. by rewrite default_mutations. }
  split; [rewrite Hr; symmetry; exact Hv|]. rewrite Hr. by destruct v0.
Qed.

End CellClaims.

(** ** Propagation keeps derived stores up to date *)

Module GraphFacts.
Import Engine EngineFacts StateCell Program.

Lemma getState_write_ne i k v w : k ≠ i -> getState k (write i v w) = getState k w.
Proof. intros H. unfold getState. by rewrite lookup_write_ne. Qed.

Lemma kind_write i k v w :
  kind <$> (stores (write i v w) !! k) = kind <$> (stores w !! k).
Proof.
  destruct (decide (k = i)) as [->|Hne]; [|by rewrite lookup_write_ne].
  destruct (stores w !! i) as [s|] eqn:E.
  - by rewrite (lookup_write_eq _ _ _ _ E).
  - unfold write. rewrite E. by rewrite E.
Qed.

Lemma sources_clean (dirty srcs : list nat) (k : nat) :
  existsb (fun k => bool_decide (k ∈ dirty)) srcs = false ->
  k ∈ srcs -> k ∉ dirty.
Proof.
  intros Hex Hk Hd.
  assert (existsb (fun k => bool_decide (k ∈ dirty)) srcs = true) as Ht.
  { apply existsb_exists. exists k. split; [by apply list_elem_of_In|].
    by apply bool_decide_eq_true. }
  congruence.
Qed.

(** The loop invariant of [refresh], relative to the world [w0] before the
    update: below the cursor [a] every derived store is up to date and the
    stores outside [dirty] are as in [w0]; from [a] on nothing has changed. *)
Lemma refresh_derived w0 :
  derived_ok w0 ->
  forall n a dirty w,
    (forall k, kind <$> (stores w !! k) = kind <$> (stores w0 !! k)) ->
    (forall k, a <= k -> getState k w = getState k w0) ->
    (forall k, k < a -> k ∉ dirty -> getState k w = getState k w0) ->
    (forall j s srcs fn,
       j < a -> stores w !! j = Some s -> kind s = Derived srcs fn ->
       currentState s = fn ((fun k => getState k w) <$> srcs)) ->
    (forall k, kind <$> (stores (refresh (seq a n) dirty w) !! k)
               = kind <$> (stores w0 !! k))
    /\ (forall j s srcs fn,
          j < a + n ->
          stores (refresh (seq a n) dirty w) !! j = Some s ->
          kind s = Derived srcs fn ->
          currentState s
          = fn ((fun k => getState k (refresh (seq a n) dirty w)) <$> srcs)).
Proof.
  intros Hok. induction n as [|n IH]; intros a dirty w J1 J2 J3 J4.
  { simpl. split; [exact J1|]. intros j s srcs fn Hj. apply (J4 j). lia. }
  simpl seq. simpl refresh.
  replace (a + S n) with (S a + n) by lia.
  (* what [w0] knows about the store under the cursor *)
  assert (forall s srcs fn,
            stores w !! a = Some s -> kind s = Derived srcs fn ->
            Forall (fun k => k < a) srcs
            /\ getState a w0 = fn ((fun k => getState k w0) <$> srcs)) as Hcur.
  { intros s srcs fn Hs Hkind. pose proof (J1 a) as Ha. rewrite Hs in Ha.
    destruct (stores w0 !! a) as [s0|] eqn:E0; [|done].
    simpl in Ha. injection Ha as Ha. rewrite Hkind in Ha.
    destruct (Hok a s0 srcs fn E0 (eq_sym Ha)) as [Hlt Hval].
    split; [exact Hlt|]. unfold getState at 1. by rewrite E0. }
  (* the cursor moves on without a write *)
  assert ((forall s srcs fn, stores w !! a = Some s -> kind s = Derived srcs fn ->
             currentState s = fn ((fun k => getState k w) <$> srcs)) ->
          (forall k, kind <$> (stores (refresh (seq (S a) n) dirty w) !! k)
                     = kind <$> (stores w0 !! k))
          /\ (forall j s srcs fn,
                j < S a + n ->
                stores (refresh (seq (S a) n) dirty w) !! j = Some s ->
                kind s = Derived srcs fn ->
                currentState s
                = fn ((fun k => getState k (refresh (seq (S a) n) dirty w))
                        <$> srcs))) as Hskip.
  { intros Hsame. apply IH; [exact J1| |  |].
    - intros k Hk. apply J2. lia.
    - intros k Hk Hd. destruct (decide (k = a)) as [->|Hne].
      + apply J2. lia.
      + apply J3; [lia|done].
    - intros j s srcs fn Hj Hs Hkind.
      destruct (decide (j = a)) as [->|Hne]; [|apply (J4 j); [lia|done..]].
      by apply Hsame. }
  destruct (stores w !! a) as [[[|srcs fn] d c ws]|] eqn:Ea;
    [apply Hskip; intros ? ? ? [= <-]; done | | apply Hskip; done].
  destruct (existsb (fun k => bool_decide (k ∈ dirty)) srcs) eqn:Eex.
  2:{ (* no source was updated: the store is as in [w0], and so are its
         sources *)
      apply Hskip. intros s srcs' fn' [= <-] [= <- <-]. simpl.
      destruct (Hcur _ srcs fn eq_refl eq_refl) as [Hlt Hval].
      assert (c = getState a w) as -> by (unfold getState; by rewrite Ea).
      rewrite J2 by lia. rewrite Hval. f_equal.
      apply list_fmap_ext. intros ? k Hk.
      symmetry. apply J3.
      + eapply Forall_forall in Hlt; [exact Hlt|]. by eapply list_elem_of_lookup_2.
      + eapply sources_clean; [exact Eex|]. by eapply list_elem_of_lookup_2. }
  destruct (strict_eq c (fn ((fun k => getState k w) <$> srcs))) eqn:Esame.
  { (* the recomputed state is the one the store holds *)
    apply Hskip. intros s srcs' fn' [= <-] [= <- <-]. simpl.
    by apply strict_eq_sound. }
  destruct (Hcur _ srcs fn eq_refl eq_refl) as [Hlt _].
  apply IH.
  - intros k. rewrite stores_notify, kind_write. apply J1.
  - intros k Hk. rewrite getState_notify, getState_write_ne by lia. apply J2. lia.
  - intros k Hk Hd. apply not_elem_of_cons in Hd as [Hne Hd].
    rewrite getState_notify, getState_write_ne by done. apply J3; [lia|done].
  - intros j s srcs' fn' Hj Hs Hkind. rewrite stores_notify in Hs.
    destruct (decide (j = a)) as [->|Hne].
    + rewrite (lookup_write_eq _ _ _ _ Ea) in Hs. injection Hs as <-.
      simpl in Hkind. injection Hkind as <- <-. simpl. f_equal.
      apply list_fmap_ext. intros ? k Hk.
      rewrite getState_notify, getState_write_ne; [done|].
      eapply Forall_forall in Hlt; [|by eapply list_elem_of_lookup_2]. lia.
    + rewrite lookup_write_ne in Hs by done.
      rewrite (J4 j s srcs' fn') by (done || lia). f_equal.
      apply list_fmap_ext. intros ? k Hk.
      rewrite getState_notify, getState_write_ne; [done|].
      (* a source of [j] is older than [j] *)
      pose proof (J1 j) as Hj1. rewrite Hs in Hj1.
      destruct (stores w0 !! j) as [s0|] eqn:E0; [|done].
      simpl in Hj1. injection Hj1 as Hj1. rewrite Hkind in Hj1.
      destruct (Hok j s0 srcs' fn' E0 (eq_sym Hj1)) as [Hlt' _].
      eapply Forall_forall in Hlt'; [|by eapply list_elem_of_lookup_2]. lia.
Qed.

(** An update of a cell keeps the graph well formed. *)
Lemma install_graph i v w s :
  bounded w -> derived_ok w ->
  stores w !! i = Some s -> kind s = Base ->
  bounded (install i v w) /\ derived_ok (install i v w).
Proof.
  intros Hb Hok Hs Hkind.
  assert (i < next_store w) as Hi by (by eapply Hb).
  destruct (strict_eq (getState i w) v) eqn:Hsame.
  { by rewrite install_same. }
  assert (install i v w
          = refresh (seq (S i) (next_store w - S i)) [i] (notify i (write i v w)))
    as Hinstall by (unfold install; by rewrite Hsame).
  destruct (refresh_derived w Hok (next_store w - S i) (S i) [i]
              (notify i (write i v w))) as [K1 K2].
  - intros k. by rewrite stores_notify, kind_write.
  - intros k Hk. rewrite getState_notify, getState_write_ne by lia. done.
  - intros k Hk Hd. apply not_elem_of_cons in Hd as [Hne _].
    by rewrite getState_notify, getState_write_ne.
  - intros j sj srcs fn Hj Hsj Hkj. rewrite stores_notify in Hsj.
    destruct (decide (j = i)) as [->|Hne].
    { rewrite (lookup_write_eq _ _ _ _ Hs) in Hsj. injection Hsj as <-.
      simpl in Hkj. congruence. }
    rewrite lookup_write_ne in Hsj by done.
    destruct (Hok j sj srcs fn Hsj Hkj) as [Hlt ->]. f_equal.
    apply list_fmap_ext. intros ? k Hk.
    rewrite getState_notify, getState_write_ne; [done|].
    eapply Forall_forall in Hlt; [|by eapply list_elem_of_lookup_2]. lia.
  - rewrite <- Hinstall in K1, K2.
    assert (bounded (install i v w)) as Hb'.
    { intros j sj Hsj. rewrite next_store_install.
      pose proof (K1 j) as Hj. rewrite Hsj in Hj.
      destruct (stores w !! j) as [s0|] eqn:E0; [by eapply Hb|done]. }
    split; [exact Hb'|].
    intros j sj srcs fn Hsj Hkj. split.
    + pose proof (K1 j) as Hj. rewrite Hsj in Hj.
      destruct (stores w !! j) as [s0|] eqn:E0; [|done].
      simpl in Hj. injection Hj as Hj. rewrite Hkj in Hj.
      by destruct (Hok j s0 srcs fn E0 (eq_sym Hj)).
    + apply (K2 j); [|done..].
      apply Hb' in Hsj. rewrite next_store_install in Hsj. lia.
Qed.

Lemma commit_graph i v w s :
  bounded w -> derived_ok w ->
  stores w !! i = Some s -> kind s = Base ->
  bounded (commit i v w) /\ derived_ok (commit i v w).
Proof.
  intros Hb Hok Hs Hkind. unfold commit.
  destruct (not_undefined v); [by eapply install_graph|done].
Qed.

(** Allocation keeps the graph well formed, when a new derived store is
    computed from sources that exist. *)
Lemma alloc_graph s w :
  bounded w -> derived_ok w ->
  (forall srcs fn, kind s = Derived srcs fn ->
     Forall (fun k => k < next_store w) srcs
     /\ currentState s = fn ((fun k => getState k w) <$> srcs)) ->
  bounded (alloc s w).1 /\ derived_ok (alloc s w).1.
Proof.
  intros Hb Hok Hnew. unfold alloc. simpl.
  assert (forall k, k < next_store w ->
            getState k (mkWorld (<[next_store w := s]> (stores w))
                          (S (next_store w)) (next_watcher w) (calls w))
            = getState k w) as Hget.
  { intros k Hk. unfold getState. simpl. by rewrite lookup_insert_ne by lia. }
  split.
  - intros j sj. simpl. destruct (decide (j = next_store w)) as [->|Hne]; [lia|].
    rewrite lookup_insert_ne by done. intros Hsj. apply Hb in Hsj. lia.
  - intros j sj srcs fn. simpl.
    destruct (decide (j = next_store w)) as [->|Hne].
    + rewrite lookup_insert_eq. intros [= <-] Hk.
      destruct (Hnew srcs fn Hk) as [Hlt ->]. split; [exact Hlt|]. f_equal.
      apply list_fmap_ext. intros ? k Hin. symmetry. apply Hget.
      eapply Forall_forall in Hlt; [exact Hlt|]. by eapply list_elem_of_lookup_2.
    + rewrite lookup_insert_ne by done. intros Hsj Hk.
      destruct (Hok j sj srcs fn Hsj Hk) as [Hlt ->]. split; [exact Hlt|].
      f_equal. apply list_fmap_ext. intros ? k Hin. symmetry. apply Hget.
      eapply Forall_forall in Hlt; [|by eapply list_elem_of_lookup_2].
      apply Hb in Hsj. lia.
Qed.

(** Changing the watchers of a store does not touch the graph. *)
Lemma rewatch_graph i ws w s :
  bounded w -> derived_ok w -> stores w !! i = Some s ->
  forall nw cs,
    let w' := mkWorld (<[i := mkStore (kind s) (defaultState s) (currentState s) ws]>
                         (stores w)) (next_store w) nw cs in
    bounded w' /\ derived_ok w'.
Proof.
  intros Hb Hok Hs nw cs w'.
  assert (forall k, getState k w' = getState k w) as Hget.
  { intros k. unfold getState. subst w'. simpl.
    destruct (decide (k = i)) as [->|Hne].
    - by rewrite lookup_insert_eq, Hs.
    - by rewrite lookup_insert_ne. }
  split.
  - intros j sj. subst w'. simpl. destruct (decide (j = i)) as [->|Hne].
    + intros _. by eapply Hb.
    + rewrite lookup_insert_ne by done. apply Hb.
  - intros j sj srcs fn. subst w'. simpl.
    destruct (decide (j = i)) as [->|Hne].
    + rewrite lookup_insert_eq. intros [= <-] Hk. simpl in *.
      destruct (Hok i s srcs fn Hs Hk) as [Hlt Hval]. split; [exact Hlt|].
      etrans; [exact Hval|]. f_equal. apply list_fmap_ext. intros ? k _. symmetry. apply Hget.
    + rewrite lookup_insert_ne by done. intros Hsj Hk.
      destruct (Hok j sj srcs fn Hsj Hk) as [Hlt Hval]. split; [exact Hlt|].
      etrans; [exact Hval|].
      f_equal. apply list_fmap_ext. intros ? k _. symmetry. apply Hget.
Qed.

(** Updates leave subscriptions alone. *)
Lemma watchers_of_write i k v w : watchers_of k (write i v w) = watchers_of k w.
Proof.
  unfold watchers_of. destruct (decide (k = i)) as [->|Hne];
    [|by rewrite lookup_write_ne].
  destruct (stores w !! i) as [s|] eqn:E.
  - by rewrite (lookup_write_eq _ _ _ _ E).
  - unfold write. rewrite E. by rewrite E.
Qed.

Lemma watchers_of_notify i k w : watchers_of k (notify i w) = watchers_of k w.
Proof. unfold watchers_of. by rewrite stores_notify. Qed.

Lemma next_watcher_notify i w : next_watcher (notify i w) = next_watcher w.
Proof. unfold notify. by destruct (stores w !! i). Qed.

Lemma next_watcher_write i v w : next_watcher (write i v w) = next_watcher w.
Proof. unfold write. by destruct (stores w !! i). Qed.

Lemma refresh_watchers ids : forall dirty w,
  (forall k, watchers_of k (refresh ids dirty w) = watchers_of k w)
  /\ next_watcher (refresh ids dirty w) = next_watcher w.
Proof.
  induction ids as [|j ids IH]; intros dirty w; [done|]. simpl.
  destruct (stores w !! j) as [[[|srcs fn] d c ws]|]; try by apply IH.
  destruct (existsb _ srcs); [|by apply IH].
  destruct (strict_eq c _); [by apply IH|].
  destruct (IH (j :: dirty)
              (notify j (write j (fn ((fun k => getState k w) <$> srcs)) w)))
    as [H1 H2].
  split.
  - intros k. by rewrite H1, watchers_of_notify, watchers_of_write.
  - by rewrite H2, next_watcher_notify, next_watcher_write.
Qed.

Lemma install_watchers i v w :
  (forall k, watchers_of k (install i v w) = watchers_of k w)
  /\ next_watcher (install i v w) = next_watcher w.
Proof.
  unfold install. destruct (strict_eq (getState i w) v); [done|].
  destruct (refresh_watchers (seq (S i) (next_store w - S i)) [i]
              (notify i (write i v w))) as [H1 H2].
  split.
  - intros k. by rewrite H1, watchers_of_notify, watchers_of_write.
  - by rewrite H2, next_watcher_notify, next_watcher_write.
Qed.

Lemma commit_watchers i v w :
  (forall k, watchers_of k (commit i v w) = watchers_of k w)
  /\ next_watcher (commit i v w) = next_watcher w.
Proof.
  unfold commit. destruct (not_undefined v); [apply install_watchers|done].
Qed.

Lemma tokens_same w w' :
  (forall k, watchers_of k w' = watchers_of k w) ->
  next_watcher w' = next_watcher w ->
  tokens_ok w -> tokens_ok w'.
Proof.
  intros Hw Hn (H1 & H2 & H3). repeat split.
  - intros i. rewrite Hw. apply H1.
  - intros i t. rewrite Hw, Hn. apply H2.
  - intros i j t. rewrite !Hw. apply H3.
Qed.

Lemma commit_tokens i v w : tokens_ok w -> tokens_ok (commit i v w).
Proof. destruct (commit_watchers i v w). by apply tokens_same. Qed.

Lemma install_tokens i v w : tokens_ok w -> tokens_ok (install i v w).
Proof. destruct (install_watchers i v w). by apply tokens_same. Qed.

Lemma alloc_tokens s w :
  watchers s = [] -> tokens_ok w -> tokens_ok (alloc s w).1.
Proof.
  intros Hs (H1 & H2 & H3).
  assert (forall k, watchers_of k (alloc s w).1
                    = if decide (k = next_store w) then [] else watchers_of k w)
    as Hw.
  { intros k. unfold watchers_of, alloc. simpl. case_decide as Hk.
    - subst k. by rewrite lookup_insert_eq.
    - by rewrite lookup_insert_ne. }
  repeat split.
  - intros i. rewrite Hw. case_decide; [constructor|apply H1].
  - intros i t. rewrite Hw. case_decide; [by intros ?%elem_of_nil|apply H2].
  - intros i j t. rewrite !Hw.
    repeat case_decide; try (by intros ?%elem_of_nil);
      try (by intros _ ?%elem_of_nil). apply H3.
Qed.

Lemma watch_tokens i w : tokens_ok w -> tokens_ok (watch i w).1.
Proof.
  intros (H1 & H2 & H3). unfold watch.
  destruct (stores w !! i) as [s|] eqn:E; [|done]. simpl.
  assert (forall k,
    watchers_of k
      (mkWorld (<[i := mkStore (kind s) (defaultState s) (currentState s)
                          (watchers s ++ [next_watcher w])]> (stores w))
               (next_store w) (S (next_watcher w))
               (calls w ++ [(next_watcher w, currentState s)]))
    = if decide (k = i) then watchers_of i w ++ [next_watcher w]
      else watchers_of k w) as Hw.
  { intros k. unfold watchers_of. simpl. case_decide as Hk.
    - subst k. by rewrite lookup_insert_eq, E.
    - by rewrite lookup_insert_ne. }
  assert (forall k, next_watcher w ∉ watchers_of k w) as Hfresh.
  { intros k Hin. apply H2 in Hin. lia. }
  repeat split.
  - intros k. rewrite Hw. case_decide; [|apply H1].
    apply NoDup_app. split; [apply H1|]. split; [|apply NoDup_singleton].
    intros t Ht ->%list_elem_of_singleton. by eapply Hfresh.
  - intros k t. rewrite Hw. simpl. case_decide.
    + intros [Ht| ->%list_elem_of_singleton]%elem_of_app; [apply H2 in Ht|]; lia.
    + intros Ht%H2. lia.
  - intros k j t. rewrite !Hw.
    repeat case_decide; subst; try done.
    + intros [Ht| ->%list_elem_of_singleton]%elem_of_app Hj.
      * by eapply H3.
      * by apply Hfresh in Hj.
    + intros Hk [Ht| ->%list_elem_of_singleton]%elem_of_app.
      * by eapply H3.
      * by apply Hfresh in Hk.
    + apply H3.
Qed.

Lemma unwatch_tokens i t w : tokens_ok w -> tokens_ok (unwatch i t w).
Proof.
  intros (H1 & H2 & H3). unfold unwatch.
  destruct (stores w !! i) as [s|] eqn:E; [|done].
  assert (forall k u,
    u ∈ watchers_of k
      (mkWorld (<[i := mkStore (kind s) (defaultState s) (currentState s)
                          (filter (fun u => u ≠ t) (watchers s))]> (stores w))
               (next_store w) (next_watcher w) (calls w))
    -> u ∈ watchers_of k w) as Hsub.
  { intros k u. unfold watchers_of. simpl.
    destruct (decide (k = i)) as [->|Hk].
    - rewrite lookup_insert_eq, E. by intros [_ ?]%list_elem_of_filter.
    - by rewrite lookup_insert_ne. }
  repeat split.
  - intros k. unfold watchers_of. simpl.
    destruct (decide (k = i)) as [->|Hk].
    + rewrite lookup_insert_eq. apply NoDup_filter.
      specialize (H1 i). unfold watchers_of in H1. by rewrite E in H1.
    + rewrite lookup_insert_ne by done. apply H1.
  - intros k u Hu%Hsub. by eapply H2.
  - intros k j u Hk%Hsub Hj%Hsub. by eapply H3.
Qed.

Lemma is_base_spec i w :
  is_base i w = true -> exists s, stores w !! i = Some s /\ kind s = Base.
Proof.
  unfold is_base. destruct (stores w !! i) as [[[|] ? ? ?]|]; try done.
  intros _. by eexists.
Qed.

Lemma on_sound i reducer w :
  is_base i w = true -> sound w -> sound (on i reducer w).
Proof.
  intros (s & Hs & Hk)%is_base_spec (Hb & Hok & Ht). unfold on. rewrite Hs.
  destruct (commit_graph i (reducer (currentState s)) w s Hb Hok Hs Hk).
  split; [done|]. split; [done|]. by apply commit_tokens.
Qed.

Lemma reset_sound i w :
  is_base i w = true -> sound w -> sound (Engine.reset i w).
Proof.
  intros (s & Hs & Hk)%is_base_spec (Hb & Hok & Ht). unfold Engine.reset.
  rewrite Hs.
  destruct (install_graph i (defaultState s) w s Hb Hok Hs Hk).
  split; [done|]. split; [done|]. by apply install_tokens.
Qed.

Lemma sources_exist w (srcs : list nat) :
  bounded w -> forallb (exists_store w) srcs = true ->
  Forall (fun k => k < next_store w) srcs.
Proof.
  intros Hb Hall. apply Forall_forall. intros k Hk.
  rewrite forallb_forall in Hall. apply list_elem_of_In, Hall in Hk.
  unfold exists_store in Hk.
  destruct (stores w !! k) eqn:E; [by eapply Hb|done].
Qed.

Lemma perform_sound a w : sound w -> sound (perform a w).
Proof.
  intros Hs. pose proof Hs as (Hb & Hok & Ht).
  destruct a as [v0|deps fn|c v|c f|c|i|i t]; simpl.
  - unfold State, createStore.
    destruct (alloc_graph (mkStore Base (default_null v0) (default_null v0) [])
                w Hb Hok) as [? ?]; [done|].
    split; [done|]. split; [done|]. by apply alloc_tokens.
  - destruct (forallb (exists_store w) deps) eqn:Hall; [|done].
    unfold Computed.computed, sample.
    set (v := fn ((fun k => getState k w) <$> deps)).
    destruct (alloc_graph (mkStore (Derived deps (fun values => fn values)) v v [])
                w Hb Hok) as [? ?].
    { intros srcs fn' [= <- <-]. split; [by apply sources_exist|done]. }
    split; [done|]. split; [done|]. by apply alloc_tokens.
  - destruct (is_base (StateCell.dollar_state c) w) eqn:E; [|done].
    by apply on_sound.
  - destruct (is_base (StateCell.dollar_state c) w) eqn:E; [|done].
    by apply on_sound.
  - destruct (is_base (StateCell.dollar_state c) w) eqn:E; [|done].
    by apply reset_sound.
  - pose proof (watch_tokens i w Ht) as Ht'. unfold watch in *.
    destruct (stores w !! i) as [s|] eqn:E; [|done]. simpl in *.
    destruct (rewatch_graph i (watchers s ++ [next_watcher w]) w s Hb Hok E
                (S (next_watcher w))
                (calls w ++ [(next_watcher w, currentState s)])).
    split; [done|]. split; done.
  - pose proof (unwatch_tokens i t w Ht) as Ht'. unfold unwatch in *.
    destruct (stores w !! i) as [s|] eqn:E; [|done].
    destruct (rewatch_graph i (filter (fun u => u ≠ t) (watchers s)) w s Hb Hok E
                (next_watcher w) (calls w)).
    split; [done|]. split; done.
Qed.

Lemma empty_sound : sound Engine.empty.
Proof.
  split; [done|]. split; [done|]. split; [|split].
  - intros i. constructor.
  - intros i t. by intros ?%elem_of_nil.
  - intros i j t. by intros ?%elem_of_nil.
Qed.

Lemma steps_sound prog : forall w,
  sound w -> sound (foldl (fun w' a => perform a w') w prog).
Proof.
  induction prog as [|a prog IH]; intros w Hs; [done|].
  simpl. apply IH. by apply perform_sound.
Qed.

Lemma run_sound prog : sound (run prog).
Proof. apply steps_sound, empty_sound. Qed.






End GraphFacts.

(** ** Claims on derived values and on notifications *)

Module GraphClaims.
Import Engine EngineFacts StateCell Program GraphFacts.



(** The scenario of section 8: after [c1.set(3); c2.set(4)] the sum is 7. *)
Example sum_of_cells_is_7 :
  Computed.value_of Scenarios.sum_of_cells.1 Scenarios.sum_of_cells.2 = VNum 7.
Proof. vm_compute. reflexivity. Qed.

(** *** Notifications *)

Lemma calls_notify j w :
  calls (notify j w)
  = calls w ++ ((fun u => (u, getState j w)) <$> watchers_of j w).
Proof.
  unfold notify, getState, watchers_of.
  destruct (stores w !! j); simpl; [done|by rewrite app_nil_r].
Qed.

Lemma calls_write j v w : calls (write j v w) = calls w.
Proof. unfold write. by destruct (stores w !! j). Qed.

Lemma calls_to_others (t : nat) (v : value) (l : list nat) :
  t ∉ l -> filter (fun c : nat * value => c.1 = t) ((fun u => (u, v)) <$> l) = [].
Proof.
  induction l as [|u l IH]; intros Hn; [done|].
  apply not_elem_of_cons in Hn as [Hne Hn]. simpl.
  rewrite filter_cons_False by (simpl; congruence). by apply IH.
Qed.

Lemma calls_to_one (t : nat) (v : value) (l : list nat) :
  NoDup l -> t ∈ l ->
  filter (fun c : nat * value => c.1 = t) ((fun u => (u, v)) <$> l) = [(t, v)].
Proof.
  induction l as [|u l IH]; intros Hnd Hin; [by apply elem_of_nil in Hin|].
  apply NoDup_cons in Hnd as [Hu Hnd]. simpl.
  destruct (decide (u = t)) as [->|Hne].
  - rewrite filter_cons_True by done. by rewrite calls_to_others.
  - rewrite filter_cons_False by (simpl; congruence).
    apply IH; [done|]. apply elem_of_cons in Hin as [?|?]; [congruence|done].
Qed.

(** Propagation only calls the watchers of the stores it recomputes. *)
Lemma refresh_calls t ids : forall dirty w,
  (forall j, j ∈ ids -> t ∉ watchers_of j w) ->
  calls_to t (refresh ids dirty w) = calls_to t w.
Proof.
  induction ids as [|j ids IH]; intros dirty w Hids; [done|]. simpl.
  assert (forall k, k ∈ ids -> t ∉ watchers_of k w) as Hrest
    by (intros k Hk; apply Hids; by right).
  destruct (stores w !! j) as [[[|srcs fn] d c ws]|] eqn:E; try by apply IH.
  destruct (existsb _ srcs); [|by apply IH].
  destruct (strict_eq c _); [by apply IH|].
  rewrite IH.
  - unfold calls_to. rewrite calls_notify, calls_write, filter_app.
    rewrite calls_to_others; [by rewrite app_nil_r|].
    rewrite watchers_of_write. apply Hids. by left.
  - intros k Hk. rewrite watchers_of_notify, watchers_of_write. by apply Hrest.
Qed.

(** An update of a store to another state calls each of its current
    watchers once, with the new state. *)
Lemma install_notifies i v w t :
  tokens_ok w -> t ∈ watchers_of i w ->
  strict_eq (getState i w) v = false ->
  calls_to t (install i v w) = calls_to t w ++ [(t, v)].
Proof.
  intros (Hnd & _ & Huniq) Ht Hne. unfold install. rewrite Hne.
  assert (exists s, stores w !! i = Some s) as [s Hs].
  { unfold watchers_of in Ht. destruct (stores w !! i); [by eexists|].
    by apply elem_of_nil in Ht. }
  rewrite refresh_calls.
  - unfold calls_to. rewrite calls_notify, calls_write, filter_app.
    rewrite watchers_of_write. f_equal.
    assert (getState i (write i v w) = v) as ->
      by (unfold getState; by rewrite (lookup_write_eq _ _ _ _ Hs)).
    by apply calls_to_one.
  - intros j Hj Hin. rewrite watchers_of_notify, watchers_of_write in Hin.
    apply elem_of_seq in Hj. specialize (Huniq i j t Ht Hin). lia.
Qed.

Lemma commit_notifies i v w t :
  tokens_ok w -> t ∈ watchers_of i w ->
  v <> VUndefined -> strict_eq (getState i w) v = false ->
  calls_to t (commit i v w) = calls_to t w ++ [(t, v)].
Proof.
  intros Htok Ht Hv Hne. unfold commit.
  rewrite not_undefined_true by done. by apply install_notifies.
Qed.




(** [c = State(5); c.subscribe(fn); c.set(5)]: [fn] has been called once,
    at subscription. *)
Example redundant_set_is_dropped :
  calls_to 0 (set (mkState 0) (VNum 5)
                (run [NewState (VNum 5); DoSubscribe 0]))
  = [(0, VNum 5)].
Proof. vm_compute. reflexivity. Qed.

End GraphClaims.

(** ** More on src/async.ts: reset, the flags, histories *)

Module AsyncMore.
Import Engine Effect EngineFacts StateCell CellFacts Async AsyncFacts AsyncTrace.

Lemma handle_of_reset h w : handle_of h w -> handle_of h (reset h w).
Proof. intros H. unfold reset. by repeat apply handle_of_set. Qed.

(** Along a history the handle stays the one that was built, and the
    loading cell holds [true] exactly while a call is in flight. *)
Lemma steps_invariant es : forall h w,
  handle_of h w ->
  value_of (loading h) w = pending (fx h) ->
  let r := steps es (h, w) in
  handle_of r.1 r.2
  /\ value_of (loading r.1) r.2 = pending (fx r.1)
  /\ initialData r.1 = initialData h.
Proof.
  induction es as [|e es IH]; intros h w Hh Hl; [done|].
  simpl. destruct e as [params|order k]; simpl.
  - pose proof (handle_of_execute params h w Hh) as Hh1.
    rewrite (execute_spec _ _ _ Hh) in Hh1 |- *.
    set (h1 := with_fx _ h) in *.
    set (w1 := if bool_decide (running (fx h) = [])
               then set (loading h) (VBool true) w else w) in *.
    destruct (IH h1 w1 Hh1) as (H1 & H2 & H3); [|done].
    subst h1 w1. simpl. unfold pending in *. simpl.
    rewrite pending_after_call. simpl.
    destruct Hh as (_ & _ & Hc & _).
    destruct (bool_decide (running (fx h) = [])); [|exact Hl].
    by rewrite value_set_self.
  - destruct (running (fx h) !! k) as [o|] eqn:Hk.
    + destruct (settled_spec order k h w o Hh Hk) as (w' & Hs & Hh' & Hl' & _).
      rewrite Hs. simpl.
      set (h1 := with_fx _ h).
      destruct (IH h1 w' Hh') as (H1 & H2 & H3); [|done].
      subst h1. simpl. rewrite Hl'. unfold pending in *. simpl.
      destruct (bool_decide (delete k (running (fx h)) = [])); [done|].
      rewrite Hl. rewrite bool_decide_eq_false_2; [done|].
      intros H. by rewrite H in Hk.
    + unfold settled, settle. rewrite Hk. simpl. by apply IH.
Qed.

Lemma created_invariant handler init w0 es :
  let created := asyncState handler init w0 in
  let r := steps es (created.2, created.1) in
  handle_of r.1 r.2
  /\ value_of (loading r.1) r.2 = pending (fx r.1)
  /\ initialData r.1 = default_null init.
Proof.
  intros created r.
  destruct (steps_invariant es created.2 created.1) as (H1 & H2 & H3).
  - apply asyncState_handle_of.
  - apply (AsyncClaims.asyncState_initial handler init w0).
  - split; [exact H1|]. split; [exact H2|]. fold r in H3. rewrite H3.
    subst created. unfold asyncState, State, createStore, alloc, watch_pending.
    simpl. reflexivity.
Qed.

(** X1: whatever calls were made and settled on a handle of [asyncState],
    [isLoading] is true exactly while a call is in flight. *)
Theorem loading_mirrors_calls handler init w0 es :
  let created := asyncState handler init w0 in
  let r := steps es (created.2, created.1) in
  isLoading r.1 r.2 = negb (bool_decide (running (fx r.1) = [])).
Proof.
  intros created r.
  destruct (created_invariant handler init w0 es) as (_ & Hl & _).
  fold created in Hl. fold r in Hl. unfold isLoading. rewrite Hl.
  unfold pending. by destruct (bool_decide (running (fx r.1) = [])).
Qed.

(** X2: [reset()] of a handle puts the three cells back to their state at
    construction, also while calls are in flight: the data cell holds the
    initial data ([null] when it was omitted), the loading cell [false],
    the error cell [null]. *)
Theorem reset_restores_construction handler init w0 es :
  let created := asyncState handler init w0 in
  let r := steps es (created.2, created.1) in
  let w' := reset r.1 r.2 in
  value_of (data r.1) w' = match init with VUndefined => VNull | given => given end
  /\ value_of (loading r.1) w' = VBool false
  /\ value_of (error r.1) w' = VNull
  /\ isLoading r.1 w' = false
  /\ hasError r.1 w' = false.
Proof.
  intros created r w'.
  destruct (created_invariant handler init w0 es) as (Hh & _ & Hi).
  fold created in Hh, Hi. fold r in Hh, Hi.
  destruct Hh as (_ & Hd & Hl & He & N1 & N2 & N3).
  assert (value_of (data r.1) w' = default_null init) as Hdata
    by (subst w'; unfold reset; read_cells; rewrite Hi;
        apply accepted_defined, default_null_defined).
  assert (value_of (loading r.1) w' = VBool false) as Hload
    by (subst w'; unfold reset; read_cells; reflexivity).
  assert (value_of (error r.1) w' = VNull) as Herr
    by (subst w'; unfold reset; read_cells; reflexivity).
  split; [rewrite Hdata; by destruct init|]. split; [exact Hload|].
  split; [exact Herr|]. unfold isLoading, hasError. by rewrite Hload, Herr.
Qed.

(** X3: [reset()] cancels nothing: a call that was in flight and resolves
    with [v] after the reset still writes [v] to the data cell, unless [v]
    is [undefined], in which case the data cell keeps what [reset()] left
    in it, and [null] to the error cell. *)
Theorem settle_after_reset order k h w v :
  handle_of h w ->
  running (fx h) !! k = Some (Resolved v) ->
  exists h' w',
    settled order k h (reset h w) = Some (h', w', Resolved v)
    /\ value_of (data h') w'
       = match v with VUndefined => value_of (data h) (reset h w) | _ => v end
    /\ value_of (error h') w' = VNull.
Proof.
  intros Hh Hk.
  destruct (settled_spec order k h (reset h w) _ (handle_of_reset _ _ Hh) Hk)
    as (w' & Hs & _ & _ & Hd & He).
  eexists _, w'. split; [exact Hs|]. simpl.
  split; [by rewrite <- accepted_case|exact He].
Qed.

Lemma settle_after_reset_witness :
  exists h' w',
    settled FinallyFirst 0 Scenarios.one_call.1
      (reset Scenarios.one_call.1 Scenarios.one_call.2)
    = Some (h', w', Resolved (VNum 42))
    /\ value_of (data h') w' = VNum 42
    /\ value_of (error h') w' = VNull.
Proof.
  apply (settle_after_reset FinallyFirst 0 Scenarios.one_call.1
           Scenarios.one_call.2 (VNum 42)).
  - AsyncClaims.handle_by_evaluation.
  - reflexivity.
Defined.

(** X4: after a settlement [hasError] is false when the call succeeded and
    true when it was rejected with a reason other than [null], and
    [hasData] is true after a success with a result other than [null]; a
    rejection leaves [hasData] as it was.  A result or a reason of
    [undefined] is dropped by the engine: it leaves [hasData], respectively
    [hasError], as it was. *)
Theorem flags_after_settlement order k h w o :
  handle_of h w ->
  running (fx h) !! k = Some o ->
  exists h' w',
    settled order k h w = Some (h', w', o)
    /\ hasError h' w'
       = match o with
         | Resolved _ => false
         | Rejected VUndefined => hasError h w
         | Rejected r => not_null r
         end
    /\ hasData h' w'
       = match o with
         | Resolved VUndefined => hasData h w
         | Resolved v => not_null v
         | Rejected _ => hasData h w
         end.
Proof.
  intros Hh Hk.
  destruct (settled_spec order k h w o Hh Hk) as (w' & Hs & _ & _ & Hd & He).
  eexists _, w'. split; [exact Hs|]. unfold hasError, hasData. simpl.
  rewrite Hd, He. by destruct o as [[]|[]].
Qed.

Lemma flags_after_settlement_witness :
  exists h' w',
    settled FinallyFirst 0 Scenarios.failing_call.1 Scenarios.failing_call.2
    = Some (h', w', Rejected (VError "boom"))
    /\ hasError h' w' = true
    /\ hasData h' w'
       = hasData Scenarios.failing_call.1 Scenarios.failing_call.2.
Proof.
  apply (flags_after_settlement FinallyFirst 0 Scenarios.failing_call.1
           Scenarios.failing_call.2 (Rejected (VError "boom"))).
  - AsyncClaims.handle_by_evaluation.
  - reflexivity.
Defined.

(** X25: a failure of [fetch] itself, and a body that [response.json()]
    cannot parse on a 2xx response, both reject the call with the reason as
    it is; the error cell then holds it and the data cell keeps its value.
    (The host rejects with an error object; were the reason [undefined],
    the error cell would keep the [null] it was created with.) *)
Theorem fetch_failures_propagate fetch url options w order params reason :
  (fetch url options = Failed reason
   \/ exists response,
        fetch url options = Answered response
        /\ ok response = true /\ json response = Rejected reason) ->
  let created := fetchState fetch url options w in
  let called := execute params created.2 created.1 in
  exists h' w',
    settled order 0 called.1 called.2 = Some (h', w', Rejected reason)
    /\ value_of (error h') w'
       = match reason with VUndefined => VNull | _ => reason end
    /\ value_of (data h') w' = VNull.
Proof.
  intros Hfetch created called.
  assert (handle_of created.2 created.1) as Hh by apply asyncState_handle_of.
  assert (running (fx created.2) = []) as Hrun by reflexivity.
  assert (handler (fx created.2) = fetchHandler fetch url options) as Hhand
    by reflexivity.
  assert (value_of (data created.2) created.1 = VNull) as Hdata
    by apply (AsyncClaims.asyncState_initial
                (fetchHandler fetch url options) VUndefined w).
  assert (value_of (error created.2) created.1 = VNull) as Herror
    by apply (AsyncClaims.asyncState_initial
                (fetchHandler fetch url options) VUndefined w).
  subst called. rewrite (execute_spec _ _ _ Hh), Hrun, Hhand.
  assert (fetchHandler fetch url options params = Rejected reason) as ->.
  { unfold fetchHandler.
    destruct Hfetch as [-> | (response & -> & -> & ->)]; reflexivity. }
  clearbody created. simpl.
  pose proof (handle_of_set _ (loading created.2) (VBool true) _ Hh) as Hh'.
  destruct (settled_spec order 0
              (with_fx (with_running [Rejected reason] (fx created.2)) created.2)
              _ _ Hh' eq_refl) as (w' & Hs & _ & _ & Hd & He).
  destruct Hh as (_ & Hcd & Hcl & Hce & N1 & N2 & N3).
  eexists _, w'. split; [exact Hs|]. split.
  - etrans; [exact He|]. simpl. rewrite accepted_case.
    rewrite value_set_other by done. by rewrite Herror.
  - simpl in Hd. etrans; [exact Hd|]. by rewrite value_set_other.
Qed.

Lemma fetch_failures_propagate_witness :
  let offline : string -> RequestInit -> fetched :=
    fun _ _ => Failed (VError "network down") in
  let created := fetchState offline "/posts" [] Engine.empty in
  let called := execute VUndefined created.2 created.1 in
  exists h' w',
    settled FinallyFirst 0 called.1 called.2
    = Some (h', w', Rejected (VError "network down"))
    /\ value_of (error h') w' = VError "network down"
    /\ value_of (data h') w' = VNull.
Proof.
  apply (fetch_failures_propagate (fun _ _ => Failed (VError "network down"))
           "/posts" [] Engine.empty FinallyFirst VUndefined
           (VError "network down")).
  left. reflexivity.
Defined.

(** X26: on a handle of [main.ts] a rejected call leaves [false] in the
    loading cell and the reason in the error cell, whichever way the engine
    orders [finally] and [failData]; a reason of [undefined] leaves the
    error cell as it was. *)
Theorem main_failure_clears_loading order k h w r :
  Main.handle_of h w ->
  running (Main.effect h) !! k = Some (Rejected r) ->
  exists h' w',
    Main.settled order k h w = Some (h', w', Rejected r)
    /\ value_of (Main.loading h') w' = VBool false
    /\ Main.isLoading h' w' = false
    /\ value_of (Main.error h') w'
       = match r with VUndefined => value_of (Main.error h) w | _ => r end.
Proof.
  intros Hh Hk.
  destruct (MainFacts.main_settled_spec order k h w _ Hh Hk)
    as (w' & Hs & _ & Hl & _ & He).
  eexists _, w'. split; [exact Hs|]. simpl.
  assert (value_of (Main.loading h) w' = VBool false) as Hl'
    by (rewrite Hl; by destruct order).
  split; [exact Hl'|]. split; [|by rewrite <- accepted_case].
  unfold Main.isLoading. simpl. by rewrite Hl'.
Qed.

Lemma main_failure_clears_loading_witness :
  exists h' w',
    Main.settled FinallyLast 0 MainScenarios.main_failing_call.1
      MainScenarios.main_failing_call.2
    = Some (h', w', Rejected (VError "boom"))
    /\ value_of (Main.loading h') w' = VBool false
    /\ Main.isLoading h' w' = false
    /\ value_of (Main.error h') w' = VError "boom".
Proof.
  apply (main_failure_clears_loading FinallyLast 0
           MainScenarios.main_failing_call.1 MainScenarios.main_failing_call.2
           (VError "boom")).
  - AsyncClaims.handle_by_evaluation.
  - reflexivity.
Defined.

(** X27: when two calls are in flight, the data cell ends with the result
    of the one that settles last, whichever was called first; a result of
    [undefined] does not count: the data cell then keeps the result of the
    other call or, if that was [undefined] too, what it held before. *)
Theorem last_settled_wins order1 order2 k1 k2 h w v1 v2 :
  handle_of h w ->
  running (fx h) !! k1 = Some (Resolved v1) ->
  delete k1 (running (fx h)) !! k2 = Some (Resolved v2) ->
  exists h1 w1 h2 w2,
    settled order1 k1 h w = Some (h1, w1, Resolved v1)
    /\ settled order2 k2 h1 w1 = Some (h2, w2, Resolved v2)
    /\ value_of (data h2) w2
       = match v2, v1 with
         | VUndefined, VUndefined => value_of (data h) w
         | VUndefined, _ => v1
         | _, _ => v2
         end
    /\ value_of (error h2) w2 = VNull.
Proof.
  intros Hh Hk1 Hk2.
  destruct (settled_spec order1 k1 h w _ Hh Hk1)
    as (w1 & Hs1 & Hh1 & _ & Hd1 & _).
  set (h1 := with_fx (with_running (delete k1 (running (fx h))) (fx h)) h) in *.
  destruct (settled_spec order2 k2 h1 w1 (Resolved v2) Hh1 Hk2)
    as (w2 & Hs2 & _ & _ & Hd & He).
  eexists h1, w1, _, w2. split; [exact Hs1|]. split; [exact Hs2|].
  split; [|exact He].
  etrans; [exact Hd|]. change (data h1) with (data h). rewrite Hd1.
  by destruct v2, v1.
Qed.

Lemma last_settled_wins_witness :
  exists h1 w1 h2 w2,
    settled FinallyFirst 1 Scenarios.two_calls.1 Scenarios.two_calls.2
    = Some (h1, w1, Resolved (VNum 8))
    /\ settled FinallyFirst 0 h1 w1 = Some (h2, w2, Resolved (VNum 42))
    /\ value_of (data h2) w2 = VNum 42
    /\ value_of (error h2) w2 = VNull.
Proof.
  apply (last_settled_wins FinallyFirst FinallyFirst 1 0
           Scenarios.two_calls.1 Scenarios.two_calls.2 (VNum 8) (VNum 42)).
  - AsyncClaims.handle_by_evaluation.
  - reflexivity.
  - reflexivity.
Defined.

End AsyncMore.

(** ** The flags of a handle and the absence markers *)

Module AsyncReach.
Import Engine Effect EngineFacts StateCell CellFacts Async AsyncFacts AsyncUse.

Lemma same_cell (c c' : StateInstance) :
  dollar_state c = dollar_state c' -> c = c'.
Proof. destruct c, c'. simpl. by intros ->. Qed.

Lemma defined_on c' reducer c w :
  defined_cell c w -> defined_cell c (on (dollar_state c') reducer w).
Proof.
  intros (Hc & Hv & d & Hd & Hdef).
  split; [by apply is_cell_on|]. split.
  - destruct (decide (dollar_state c = dollar_state c')) as [Heq|Hne].
    + rewrite <- Heq. rewrite value_on_self by done.
      by apply accepted_keeps_defined.
    + by rewrite value_on_other.
  - exists d. split; [|done]. by rewrite default_on_any.
Qed.

Lemma defined_set c' v c w : defined_cell c w -> defined_cell c (set c' v w).
Proof. apply defined_on. Qed.

Lemma default_reset_other c c' w :
  is_cell c' w -> dollar_state c' <> dollar_state c ->
  default_of c' (StateCell.reset c w) = default_of c' w.
Proof.
  intros (s & Hs & Hb) Hne. unfold default_of, StateCell.reset, Engine.reset.
  destruct (stores w !! dollar_state c) as [sc|]; [|done].
  by rewrite (install_lookup_base _ _ _ _ _ Hne Hs Hb), Hs.
Qed.

Lemma defined_reset c' c w :
  defined_cell c w -> defined_cell c (StateCell.reset c' w).
Proof.
  intros (Hc & Hv & d & Hd & Hdef).
  split; [by apply is_cell_reset|].
  destruct (decide (dollar_state c = dollar_state c')) as [Heq|Hne].
  - apply same_cell in Heq as <-. split.
    + by rewrite (value_reset _ _ _ Hd).
    + exists d. split; [|done]. by rewrite default_reset.
  - split.
    + by rewrite value_reset_other.
    + exists d. split; [|done]. by rewrite default_reset_other.
Qed.

Lemma defined_watch c' c w :
  defined_cell c w -> defined_cell c (subscribe c' w).1.
Proof.
  intros (Hc & Hv & d & Hd & Hdef).
  destruct (store_watch c' (dollar_state c) w) as [H1 H2].
  split; [by apply is_cell_watch|]. split.
  - unfold value_of, getState in *.
    destruct (stores (subscribe c' w).1 !! dollar_state c),
             (stores w !! dollar_state c); simpl in *; congruence.
  - exists d. split; [|done]. unfold default_of in *. by rewrite H2.
Qed.

Lemma defined_unwatch c' t c w :
  defined_cell c w -> defined_cell c (unsubscribe c' t w).
Proof.
  intros (Hc & Hv & d & Hd & Hdef).
  destruct (store_unwatch c' t (dollar_state c) w) as [H1 H2].
  split; [by apply is_cell_unwatch|]. split.
  - unfold value_of, getState in *.
    destruct (stores (unsubscribe c' t w) !! dollar_state c),
             (stores w !! dollar_state c); simpl in *; congruence.
  - exists d. split; [|done]. unfold default_of in *. by rewrite H2.
Qed.

(** A handle stays a handle while its cells stay cells. *)
Lemma handle_of_cells h w w' :
  (forall c, is_cell c w -> is_cell c w') -> handle_of h w -> handle_of h w'.
Proof.
  intros Hcells (Hw & Hd & Hl & He & Hne).
  split; [exact Hw|]. split; [by apply Hcells|]. split; [by apply Hcells|].
  split; [by apply Hcells|exact Hne].
Qed.

Lemma settled_defined c order k h w h' w' o :
  handle_of h w -> defined_cell c w ->
  settled order k h w = Some (h', w', o) ->
  handle_of h' w' /\ defined_cell c w'.
Proof.
  intros Hh Hc Hs.
  pose proof Hh as ((Hp & Hd & Hf & Hfin) & _).
  unfold settled, settle in Hs.
  destruct (running (fx h) !! k) as [o'|] eqn:Hk; [|done].
  unfold deliver_result, deliver_finally, update_pending, run_watchers in Hs.
  simpl in Hs. rewrite Hp, Hd, Hf, Hfin in Hs.
  destruct order, o', (bool_decide (pending (fx h) = _));
    simpl in Hs; injection Hs as <- <- <-;
    (split; [repeat apply handle_of_set; exact Hh
            |repeat apply defined_set; exact Hc]).
Qed.

(** Whatever is done with a handle, it stays a handle and its error cell
    never holds [undefined]. *)
Lemma step_defined u h w :
  handle_of h w -> defined_cell (error h) w ->
  handle_of (step u (h, w)).1 (step u (h, w)).2
  /\ defined_cell (error (step u (h, w)).1) (step u (h, w)).2.
Proof.
  intros Hh Hc.
  destruct u as [params|order k| |f v|f g|f|f|f t]; unfold step; cbn [fst snd].
  - split; [by apply handle_of_execute|].
    rewrite (execute_spec _ _ _ Hh). simpl.
    destruct (bool_decide (running (fx h) = [])); [by apply defined_set|done].
  - destruct (settled order k h w) as [[[h' w'] o]|] eqn:Hs; [|done]. simpl.
    destruct (settled_defined (error h) order k h w h' w' o Hh Hc Hs)
      as [Hh' Hc'].
    split; [exact Hh'|].
    assert (error h' = error h) as ->; [|exact Hc'].
    unfold settled in Hs. destruct (settle order k (fx h) w) as [[[? ?] ?]|];
      [|done]. by injection Hs as <- _ _.
  - unfold Async.reset.
    split; [by repeat apply handle_of_set|by repeat apply defined_set].
  - split; [by apply handle_of_set|by apply defined_set].
  - split; [|by apply defined_on].
    eapply handle_of_cells; [|exact Hh]. intros c. apply is_cell_on.
  - split; [|by apply defined_reset].
    eapply handle_of_cells; [|exact Hh]. intros c. apply is_cell_reset.
  - split; [|by apply defined_watch].
    eapply handle_of_cells; [|exact Hh]. intros c. apply is_cell_watch.
  - split; [|by apply defined_unwatch].
    eapply handle_of_cells; [|exact Hh]. intros c. apply is_cell_unwatch.
Qed.

Lemma steps_defined us : forall h w,
  handle_of h w -> defined_cell (error h) w ->
  defined_cell (error (steps us (h, w)).1) (steps us (h, w)).2.
Proof.
  induction us as [|u us IH]; intros h w Hh Hc; [exact Hc|].
  simpl. destruct (step_defined u h w Hh Hc) as [Hh' Hc'].
  destruct (step u (h, w)) as [h' w']. by apply IH.
Qed.

Lemma asyncState_defined handler init w :
  defined_cell (error (asyncState handler init w).2)
    (asyncState handler init w).1.
Proof.
  destruct (asyncState_handle_of handler init w) as (_ & _ & _ & He & _).
  split; [exact He|].
  destruct (AsyncClaims.asyncState_initial handler init w) as (_ & _ & Hv).
  split; [by rewrite Hv|].
  exists VNull. split; [|done].
  unfold asyncState, State, createStore, alloc, watch_pending. simpl.
  unfold set. rewrite default_on_any.
  - unfold default_of. simpl. by rewrite lookup_insert_eq.
  - unfold is_cell. simpl. eexists. by rewrite lookup_insert_eq.
Qed.

(** C8: on every state a handle of [asyncState] can be brought to by
    [execute], by calls that settle, by [reset] and by the methods of its
    three cells, [hasError] is true exactly when the error cell holds
    neither [null] nor [undefined], and [hasData] is true exactly when the
    data cell holds neither.  The error cell never holds [undefined]: the
    engine drops such an update; so the comparison with [null] alone, which
    is what [hasError] of [src/async.ts] does, is enough.  The flags of
    [main.ts] go through [hasValue], which checks both markers. *)
Theorem flags_agree_with_absence handler initialData w0 uses :
  let created := asyncState handler initialData w0 in
  let r := steps uses (created.2, created.1) in
  (hasError r.1 r.2 = true <-> ~ absent (value_of (error r.1) r.2))
  /\ (hasData r.1 r.2 = true <-> ~ absent (value_of (data r.1) r.2))
  /\ value_of (error r.1) r.2 <> VUndefined
  /\ (forall (m : Main.AsyncState) (w : World),
        (Main.hasError m w = true <-> ~ absent (value_of (Main.error m) w))
        /\ (Main.hasData m w = true <-> ~ absent (value_of (Main.data m) w))).
Proof.
  intros created r.
  destruct (steps_defined uses created.2 created.1) as (_ & Hv & _).
  { apply asyncState_handle_of. }
  { apply asyncState_defined. }
  fold r in Hv.
  split; [|split; [apply AsyncClaims.hasData_iff|split; [exact Hv|]]].
  - unfold hasError, absent.
    destruct (value_of (error r.1) r.2); simpl; split; intros H;
      try done; try (intros [?|?]; done); exfalso; apply H; eauto.
  - intros m w. split; [apply AsyncClaims.main_hasError_iff|].
    unfold Main.hasData, Main.hasValue, absent, value_of.
    destruct (getState _ w); simpl; split; intros H;
      try done; try (intros [?|?]; done); exfalso; apply H; eauto.
Qed.

End AsyncReach.

(** ** More on src/state.ts: subscriptions *)

Module ObserverFacts.
Import Engine EngineFacts StateCell CellFacts Program GraphFacts Observers.
Import GraphClaims.

Lemma calls_to_detached_install i v w t :
  (forall j, t ∉ watchers_of j w) ->
  calls_to t (install i v w) = calls_to t w.
Proof.
  intros Hd. unfold install.
  destruct (strict_eq (getState i w) v); [done|]. rewrite refresh_calls.
  - unfold calls_to. rewrite calls_notify, calls_write.
    rewrite filter_app, calls_to_others; [by rewrite app_nil_r|].
    rewrite watchers_of_write. apply Hd.
  - intros j _. rewrite watchers_of_notify, watchers_of_write. apply Hd.
Qed.

Lemma calls_to_detached_commit i v w t :
  (forall j, t ∉ watchers_of j w) ->
  calls_to t (commit i v w) = calls_to t w.
Proof.
  intros Hd. unfold commit.
  destruct (not_undefined v); [by apply calls_to_detached_install|done].
Qed.

(** An action leaves a detached subscription detached and uncalled. *)
Lemma perform_detached a w t :
  detached t w ->
  detached t (perform a w) /\ calls_to t (perform a w) = calls_to t w.
Proof.
  intros [Hlt Hd].
  assert (forall i v, detached t (commit i v w)
                      /\ calls_to t (commit i v w) = calls_to t w) as Hcommit.
  { intros i v. destruct (commit_watchers i v w) as [Hw Hn].
    split; [|by apply calls_to_detached_commit].
    split; [by rewrite Hn|]. intros j. rewrite Hw. apply Hd. }
  assert (forall i v, detached t (install i v w)
                      /\ calls_to t (install i v w) = calls_to t w) as Hinstall.
  { intros i v. destruct (install_watchers i v w) as [Hw Hn].
    split; [|by apply calls_to_detached_install].
    split; [by rewrite Hn|]. intros j. rewrite Hw. apply Hd. }
  destruct a as [v0|deps fn|c v|c f|c|i|i u]; simpl.
  - split; [|done]. split; [done|]. intros j.
    unfold watchers_of, State, createStore, alloc. simpl.
    destruct (decide (j = next_store w)) as [->|Hne].
    + rewrite lookup_insert_eq. apply not_elem_of_nil.
    + rewrite lookup_insert_ne by done. apply Hd.
  - destruct (forallb (exists_store w) deps); [|done].
    split; [|done]. split; [done|]. intros j.
    unfold watchers_of, Computed.computed, sample, alloc. simpl.
    destruct (decide (j = next_store w)) as [->|Hne].
    + rewrite lookup_insert_eq. apply not_elem_of_nil.
    + rewrite lookup_insert_ne by done. apply Hd.
  - destruct (is_base _ w); [|done]. unfold set, on.
    destruct (stores w !! dollar_state c); [apply Hcommit|done].
  - destruct (is_base _ w); [|done]. unfold update, on.
    destruct (stores w !! dollar_state c); [apply Hcommit|done].
  - destruct (is_base _ w); [|done]. unfold reset, Engine.reset.
    destruct (stores w !! dollar_state c); [apply Hinstall|done].
  - unfold watch. destruct (stores w !! i) as [s|] eqn:E; [|done]. simpl.
    split; [split; [simpl; lia|]|].
    + intros j. unfold watchers_of. simpl.
      destruct (decide (j = i)) as [->|Hne].
      * rewrite lookup_insert_eq. simpl.
        intros [Hin| ->%list_elem_of_singleton]%elem_of_app; [|lia].
        apply (Hd i). unfold watchers_of. by rewrite E.
      * rewrite lookup_insert_ne by done. apply Hd.
    + unfold calls_to. simpl. rewrite filter_app.
      rewrite filter_cons_False by (simpl; lia). by rewrite app_nil_r.
  - unfold unwatch. destruct (stores w !! i) as [s|] eqn:E; [|done].
    split; [|done]. split; [done|].
    intros j. unfold watchers_of. simpl.
    destruct (decide (j = i)) as [->|Hne].
    + rewrite lookup_insert_eq. simpl. intros [_ Hin]%list_elem_of_filter.
      apply (Hd i). unfold watchers_of. by rewrite E.
    + rewrite lookup_insert_ne by done. apply Hd.
Qed.

Lemma steps_detached prog : forall w t,
  detached t w ->
  calls_to t (foldl (fun w' a => perform a w') w prog) = calls_to t w.
Proof.
  induction prog as [|a prog IH]; intros w t Hd; [done|]. simpl.
  destruct (perform_detached a w t Hd) as [Hd' Hc]. by rewrite IH.
Qed.

Lemma unwatch_detaches i t w :
  tokens_ok w -> t ∈ watchers_of i w -> detached t (unwatch i t w).
Proof.
  intros (H1 & H2 & H3) Hin. unfold unwatch.
  destruct (stores w !! i) as [s|] eqn:E.
  - split; [by eapply H2|]. intros j. unfold watchers_of. simpl.
    destruct (decide (j = i)) as [->|Hne].
    + rewrite lookup_insert_eq. simpl. by intros [? _]%list_elem_of_filter.
    + rewrite lookup_insert_ne by done. intros Hj.
      apply Hne. symmetry. by eapply H3.
  - unfold watchers_of in Hin. rewrite E in Hin. by apply elem_of_nil in Hin.
Qed.

(** Calls only ever go to subscriptions that were handed out. *)
Lemma notify_bounded j w :
  tokens_ok w -> calls_bounded w -> calls_bounded (notify j w).
Proof.
  intros (_ & H2 & _) Hb t v. rewrite calls_notify, next_watcher_notify.
  intros [Hin|Hin]%elem_of_app; [by eapply Hb|].
  apply list_elem_of_fmap in Hin as (u & [= -> ->] & Hu). by eapply H2.
Qed.

Lemma write_bounded j v w : calls_bounded w -> calls_bounded (write j v w).
Proof.
  intros Hb t u. rewrite calls_write, next_watcher_write. apply Hb.
Qed.

Lemma write_tokens j v w : tokens_ok w -> tokens_ok (write j v w).
Proof.
  apply tokens_same; [intros k; apply watchers_of_write|apply next_watcher_write].
Qed.

Lemma notify_tokens j w : tokens_ok w -> tokens_ok (notify j w).
Proof.
  apply tokens_same; [intros k; apply watchers_of_notify|apply next_watcher_notify].
Qed.

Lemma refresh_bounded ids : forall dirty w,
  tokens_ok w -> calls_bounded w -> calls_bounded (refresh ids dirty w).
Proof.
  induction ids as [|j ids IH]; intros dirty w Ht Hb; [done|]. simpl.
  destruct (stores w !! j) as [[[|srcs fn] d c ws]|]; try by apply IH.
  destruct (existsb _ srcs); [|by apply IH].
  destruct (strict_eq c _); [by apply IH|].
  apply IH.
  - by apply notify_tokens, write_tokens.
  - apply notify_bounded; [by apply write_tokens|by apply write_bounded].
Qed.

Lemma install_bounded i v w :
  tokens_ok w -> calls_bounded w -> calls_bounded (install i v w).
Proof.
  intros Ht Hb. unfold install.
  destruct (strict_eq (getState i w) v); [done|]. apply refresh_bounded.
  - by apply notify_tokens, write_tokens.
  - apply notify_bounded; [by apply write_tokens|by apply write_bounded].
Qed.

Lemma commit_bounded i v w :
  tokens_ok w -> calls_bounded w -> calls_bounded (commit i v w).
Proof.
  intros Ht Hb. unfold commit.
  destruct (not_undefined v); [by apply install_bounded|done].
Qed.

Lemma perform_bounded a w :
  sound w -> calls_bounded w -> calls_bounded (perform a w).
Proof.
  intros (_ & _ & Ht) Hb.
  destruct a as [v0|deps fn|c v|c f|c|i|i u]; simpl.
  - exact Hb.
  - by destruct (forallb (exists_store w) deps).
  - destruct (is_base _ w); [|done]. unfold set, on.
    destruct (stores w !! dollar_state c); [by apply commit_bounded|done].
  - destruct (is_base _ w); [|done]. unfold update, on.
    destruct (stores w !! dollar_state c); [by apply commit_bounded|done].
  - destruct (is_base _ w); [|done]. unfold reset, Engine.reset.
    destruct (stores w !! dollar_state c); [by apply install_bounded|done].
  - unfold watch. destruct (stores w !! i) as [s|]; [|done]. simpl.
    intros t v. simpl.
    intros [Hin|[= -> ->]%list_elem_of_singleton]%elem_of_app; [|lia].
    apply Hb in Hin. lia.
  - unfold unwatch. by destruct (stores w !! i).
Qed.

Lemma run_bounded prog : calls_bounded (run prog).
Proof.
  unfold run.
  assert (forall w, sound w -> calls_bounded w ->
            calls_bounded (foldl (fun w' a => perform a w') w prog)) as H.
  { induction prog as [|a prog IH]; intros w Hs Hb; [done|]. simpl.
    apply IH; [by apply perform_sound|by apply perform_bounded]. }
  apply H; [apply empty_sound|]. intros t v Hin. by apply elem_of_nil in Hin.
Qed.

Lemma calls_to_fresh w : calls_bounded w -> calls_to (next_watcher w) w = [].
Proof.
  unfold calls_bounded, calls_to. generalize (next_watcher w) as n.
  induction (calls w) as [|[t v] l IH]; intros n Hb; [done|].
  rewrite filter_cons_False.
  - apply IH. intros u x Hin. apply (Hb u x). by right.
  - simpl. intros ->. specialize (Hb n v). 
    assert (n < n); [|lia]. apply Hb. by left.
Qed.

End ObserverFacts.

Module Subscriptions.
Import Engine EngineFacts StateCell CellFacts Program GraphFacts Observers.
Import GraphClaims ObserverFacts.

(** X5: [subscribe(fn)] on a cell calls [fn] at once, exactly once, with
    the current value, and registers it on the cell. *)
Theorem subscribe_calls_at_once prog c :
  let w := run prog in
  is_Some (stores w !! dollar_state c) ->
  let r := subscribe c w in
  calls_to r.2 r.1 = [(r.2, value_of c w)]
  /\ r.2 ∈ watchers_of (dollar_state c) r.1.
Proof.
  intros w [s Hs] r. subst r. unfold subscribe, watch, value_of, getState.
  rewrite Hs. simpl. split.
  - unfold calls_to. simpl. rewrite filter_app.
    fold (calls_to (next_watcher w) w).
    rewrite calls_to_fresh by apply run_bounded.
    by rewrite filter_cons_True.
  - unfold watchers_of. simpl. rewrite lookup_insert_eq. simpl.
    apply elem_of_app. right. by left.
Qed.

Lemma subscribe_calls_at_once_witness :
  let w := run [NewState (VNum 5)] in
  let r := subscribe (mkState 0) w in
  calls_to r.2 r.1 = [(r.2, value_of (mkState 0) w)]
  /\ r.2 ∈ watchers_of 0 r.1.
Proof.
  apply (subscribe_calls_at_once [NewState (VNum 5)] (mkState 0)).
  vm_compute. by eexists.
Defined.

(** X6: once the function returned by [subscribe] has been called, the
    subscriber receives no further invocation, whatever is done to the
    world afterwards. *)
Theorem unsubscribe_stops_calls prog c t after :
  let w := run prog in
  t ∈ watchers_of (dollar_state c) w ->
  calls_to t (foldl (fun w' a => perform a w') (unsubscribe c t w) after)
  = calls_to t w.
Proof.
  intros w Hin. destruct (run_sound prog) as (_ & _ & Ht). fold w in Ht.
  rewrite steps_detached by (by apply unwatch_detaches).
  unfold unsubscribe, unwatch. by destruct (stores w !! dollar_state c).
Qed.

Lemma unsubscribe_stops_calls_witness :
  let w := run [NewState (VNum 5); DoSubscribe 0] in
  calls_to 0 (foldl (fun w' a => perform a w') (unsubscribe (mkState 0) 0 w)
                [DoSet (mkState 0) (VNum 6); DoReset (mkState 0)])
  = calls_to 0 w.
Proof.
  apply (unsubscribe_stops_calls [NewState (VNum 5); DoSubscribe 0]
           (mkState 0) 0 [DoSet (mkState 0) (VNum 6); DoReset (mkState 0)]).
  vm_compute. constructor.
Defined.

(** X7: calling the function returned by [subscribe] a second time changes
    nothing. *)
Theorem unsubscribe_idempotent c t w :
  unsubscribe c t (unsubscribe c t w) = unsubscribe c t w.
Proof.
  unfold unsubscribe, unwatch.
  destruct (stores w !! dollar_state c) as [s|] eqn:E; [|by rewrite E].
  simpl. rewrite lookup_insert_eq. simpl. rewrite insert_insert_eq.
  f_equal. f_equal. f_equal.
  induction (watchers s) as [|u l IH]; [done|].
  rewrite (filter_cons _ u l). destruct (decide (u ≠ t)) as [Hu|Hu].
  - rewrite filter_cons_True by done. by rewrite IH.
  - exact IH.
Qed.

Lemma mutate_observed c m w t :
  tokens_ok w -> t ∈ watchers_of (dollar_state c) w ->
  let v := value_of c w in
  let v' := apply_mutation m v in
  calls_to t (mutate c m w)
  = calls_to t w ++ (if passes v v' then [(t, v')] else [])
  /\ value_of c (mutate c m w) = (if passes v v' then v' else v)
  /\ tokens_ok (mutate c m w)
  /\ t ∈ watchers_of (dollar_state c) (mutate c m w).
Proof.
  intros Ht Hin v v'.
  assert (exists s, stores w !! dollar_state c = Some s) as [s Hs].
  { unfold watchers_of in Hin. destruct (stores w !! dollar_state c); [by eexists|].
    by apply elem_of_nil in Hin. }
  assert (mutate c m w = commit (dollar_state c) v' w) as ->.
  { subst v' v. destruct m; unfold mutate, set, update, on, value_of, getState;
      by rewrite Hs. }
  destruct (commit_watchers (dollar_state c) v' w) as [Hw _].
  split; [|split; [|split; [by apply commit_tokens|by rewrite Hw]]].
  - unfold passes. destruct (not_undefined v') eqn:Hdef; simpl.
    + destruct (strict_eq v v') eqn:Hsame; simpl.
      * rewrite commit_same by done. by rewrite app_nil_r.
      * apply commit_notifies; [done..| |done]. by destruct v'.
    + destruct v'; try discriminate. by rewrite commit_undefined, app_nil_r.
  - unfold value_of. rewrite getState_commit_self by by rewrite Hs.
    fold (value_of c w). fold v. unfold passes, accepted.
    destruct (not_undefined v'); simpl; [|done].
    destruct (strict_eq v v') eqn:Hsame; simpl; [|done].
    symmetry. by apply strict_eq_sound.
Qed.

(** X8: a subscriber of a cell is called once for every [set] and [update]
    on the cell that changes its value, in the order of the calls and with
    the value each one installed; a mutation whose result is [undefined] or
    the value the cell already holds calls nobody.  (The results are any
    values but [Error] objects, whose identity the model does not track.) *)
Theorem mutations_observed_in_order prog c t ms :
  let w := run prog in
  t ∈ watchers_of (dollar_state c) w ->
  (forall m x, m ∈ ms -> plain (apply_mutation m x) = true) ->
  calls_to t (foldl (fun w' m => mutate c m w') w ms)
  = calls_to t w ++ ((fun v => (t, v)) <$> observed (value_of c w) ms).
Proof.
  intros w Hin _. destruct (run_sound prog) as (_ & _ & Ht). fold w in Ht.
  generalize dependent w. intros w. revert w.
  induction ms as [|m ms IH]; intros w Hin Ht; simpl.
  - by rewrite app_nil_r.
  - destruct (mutate_observed c m w t Ht Hin) as (Hc & Hv & Ht' & Hin').
    rewrite IH by done. rewrite Hc, Hv.
    destruct (passes _ _); simpl.
    + by rewrite <- app_assoc.
    + by rewrite app_nil_r.
Qed.

Lemma mutations_observed_in_order_witness :
  let w := run [NewState (VNum 5); DoSubscribe 0] in
  calls_to 0 (foldl (fun w' m => mutate (mkState 0) m w') w
                [MSet (VNum 1); MSet (VNum 1); MUpdate (fun _ => VNum 2)])
  = calls_to 0 w
    ++ ((fun v => (0, v))
          <$> observed (value_of (mkState 0) w)
                [MSet (VNum 1); MSet (VNum 1); MUpdate (fun _ => VNum 2)]).
Proof.
  apply (mutations_observed_in_order [NewState (VNum 5); DoSubscribe 0]
           (mkState 0) 0
           [MSet (VNum 1); MSet (VNum 1); MUpdate (fun _ => VNum 2)]).
  - vm_compute. constructor.
  - intros m x Hm.
    repeat (apply elem_of_cons in Hm as [->|Hm]; [reflexivity|]).
    by apply elem_of_nil in Hm.
Defined.

(** [c = State(5); c.subscribe(fn); c.set(1); c.set(1); c.update(() => 2)]:
    [fn] is called with 5, 1 and 2. *)
Example subscriber_sees_changes :
  calls_to 0 (foldl (fun w' m => mutate (mkState 0) m w')
                (run [NewState (VNum 5); DoSubscribe 0])
                [MSet (VNum 1); MSet (VNum 1); MUpdate (fun _ => VNum 2)])
  = [(0, VNum 5); (0, VNum 1); (0, VNum 2)].
Proof. vm_compute. reflexivity. Qed.

End Subscriptions.

(** ** More on src/computed.ts: subscribers of a derived value *)

Module DerivedObservers.
Import Engine EngineFacts StateCell CellFacts Program GraphFacts Observers.
Import GraphClaims ObserverFacts.






(** [c = State(1); d = computed([c.$state], () => 7); d.subscribe(fn);
    c.set(2)]: [fn] is called at subscription only. *)
Example constant_computed_is_silent :
  calls_to 0 (set (mkState 0) (VNum 2)
                (run [NewState (VNum 1); NewComputed [0] (fun _ => VNum 7);
                      DoSubscribe 1]))
  = [(0, VNum 7)].
Proof. vm_compute. reflexivity. Qed.

(** Propagation passes by a derived store none of whose sources was
    updated: every marked store is the updated cell or a derived store. *)
Lemma refresh_passes_by i d srcs fn t ids : forall dirty w sd,
  (forall k, k ∈ dirty -> k = i \/ exists sk srcs' fn',
                            stores w !! k = Some sk
                            /\ kind sk = Derived srcs' fn') ->
  stores w !! d = Some sd -> kind sd = Derived srcs fn ->
  i ∉ srcs ->
  (forall k, k ∈ srcs -> exists sk, stores w !! k = Some sk /\ kind sk = Base) ->
  (forall j, j <> d -> t ∉ watchers_of j w) ->
  stores (refresh ids dirty w) !! d = Some sd
  /\ calls_to t (refresh ids dirty w) = calls_to t w.
Proof.
  induction ids as [|j ids IH]; intros dirty w sd Hdirty Hd Hkind Hi Hbase Hw;
    [done|].
  simpl.
  destruct (stores w !! j) as [[[|srcs' fn'] dj cj wsj]|] eqn:Ej;
    try by apply IH.
  destruct (existsb (fun k => bool_decide (k ∈ dirty)) srcs') eqn:Eex;
    [|by apply IH].
  destruct (strict_eq cj (fn' ((fun k => getState k w) <$> srcs')));
    [by apply IH|].
  assert (j <> d) as Hjd.
  { intros ->. rewrite Hd in Ej. injection Ej as ->. simpl in Hkind.
    injection Hkind as -> ->.
    apply existsb_exists in Eex as (k & Hk%list_elem_of_In & Hkd).
    apply bool_decide_eq_true in Hkd.
    destruct (Hdirty k Hkd) as [->|(sk & s1 & f1 & Hsk & Hkk)]; [done|].
    destruct (Hbase k Hk) as (sk' & Hsk' & Hb). congruence. }
  set (w1 := notify j (write j (fn' ((fun k => getState k w) <$> srcs')) w)).
  assert (forall k, k <> j -> stores w1 !! k = stores w !! k) as Hsame
    by (intros k Hk; subst w1; by rewrite stores_notify, lookup_write_ne).
  destruct (IH (j :: dirty) w1 sd) as [H1 H2]; try done.
  - intros k [->|Hk]%elem_of_cons.
    + right. subst w1. rewrite stores_notify, (lookup_write_eq _ _ _ _ Ej).
      by eexists _, _, _.
    + destruct (Hdirty k Hk) as [->|(sk & s1 & f1 & Hsk & Hkk)]; [by left|].
      right. destruct (decide (k = j)) as [->|Hne].
      * subst w1. rewrite stores_notify, (lookup_write_eq _ _ _ _ Ej).
        by eexists _, _, _.
      * rewrite Hsame by done. by eexists _, _, _.
  - by rewrite Hsame.
  - intros k Hk. destruct (Hbase k Hk) as (sk & Hsk & Hb).
    exists sk. split; [|done]. rewrite Hsame; [done|].
    intros ->. rewrite Ej in Hsk. injection Hsk as <-. done.
  - intros k Hk. subst w1. rewrite watchers_of_notify, watchers_of_write.
    by apply Hw.
  - split; [exact H1|]. rewrite H2. subst w1. unfold calls_to.
    rewrite calls_notify, calls_write, filter_app, watchers_of_write.
    rewrite calls_to_others; [by rewrite app_nil_r|]. by apply Hw.
Qed.

(** X28: when a cell that is not among the sources of a derived value over
    cells is [set], the derived value keeps its value and its subscribers
    are not called. *)
Theorem computed_ignores_other_cells prog c d srcs fn t v :
  let w := run prog in
  is_base (dollar_state c) w = true ->
  kind <$> (stores w !! d) = Some (Derived srcs fn) ->
  forallb (fun k => is_base k w) srcs = true ->
  dollar_state c ∉ srcs ->
  t ∈ watchers_of d w ->
  calls_to t (set c v w) = calls_to t w
  /\ getState d (set c v w) = getState d w.
Proof.
  intros w Hbase Hkind Hsrcs Hc Ht.
  destruct (run_sound prog) as (_ & _ & Htok). fold w in Htok.
  pose proof Htok as (_ & _ & Huniq).
  apply is_base_spec in Hbase as (s & Hs & Hb).
  destruct (stores w !! d) as [sd|] eqn:Ed; [|done].
  simpl in Hkind. injection Hkind as Hkind.
  assert (d <> dollar_state c) as Hdc by (intros ->; congruence).
  unfold set, on. rewrite Hs. unfold commit.
  destruct (not_undefined v); [|done]. unfold install.
  destruct (strict_eq (getState (dollar_state c) w) v); [done|].
  set (w1 := notify (dollar_state c) (write (dollar_state c) v w)).
  assert (forall k, k <> dollar_state c -> stores w1 !! k = stores w !! k)
    as Hsame by (intros k Hk; subst w1; by rewrite stores_notify, lookup_write_ne).
  destruct (refresh_passes_by (dollar_state c) d srcs fn t
              (seq (S (dollar_state c)) (next_store w - S (dollar_state c)))
              [dollar_state c] w1 sd) as [H1 H2]; try done.
  - intros k ->%list_elem_of_singleton. by left.
  - by rewrite Hsame.
  - intros k Hk.
    assert (k <> dollar_state c) as Hkc by (by intros ->).
    rewrite forallb_forall in Hsrcs.
    pose proof (Hsrcs k (proj1 (list_elem_of_In _ _) Hk)) as Hbk.
    apply is_base_spec in Hbk as (sk & Hsk & Hbk).
    exists sk. split; [by rewrite Hsame|done].
  - intros j Hj Hin. subst w1.
    rewrite watchers_of_notify, watchers_of_write in Hin.
    apply Hj. symmetry. by eapply Huniq.
  - split.
    + rewrite H2. subst w1. unfold calls_to.
      rewrite calls_notify, calls_write, filter_app, watchers_of_write.
      rewrite calls_to_others; [by rewrite app_nil_r|].
      intros Hin. apply Hdc. by eapply Huniq.
    + unfold getState. by rewrite H1, Ed.
Qed.

Lemma computed_ignores_other_cells_witness :
  let w := run [NewState (VNum 0); NewState (VNum 0); NewState (VNum 0);
                NewComputed [0; 1] Scenarios.add; DoSubscribe 3] in
  calls_to 0 (set (mkState 2) (VNum 9) w) = calls_to 0 w
  /\ getState 3 (set (mkState 2) (VNum 9) w) = getState 3 w.
Proof.
  apply (computed_ignores_other_cells
           [NewState (VNum 0); NewState (VNum 0); NewState (VNum 0);
            NewComputed [0; 1] Scenarios.add; DoSubscribe 3]
           (mkState 2) 3 [0; 1] Scenarios.add 0 (VNum 9)).
  - reflexivity.
  - reflexivity.
  - reflexivity.
  - vm_compute. intros H. inversion H as [|? ? ? H1]; subst.
    inversion H1 as [|? ? ? H2]; subst. inversion H2.
  - vm_compute. constructor.
Defined.

End DerivedObservers.

(** ** main.ts: accessors, clear, the bound effect, toggle *)

Module MainStateFacts.
Import Engine Effect EngineFacts StateCell CellFacts MainState.

(** X10: [getValue()] returns the current value exactly when [hasValue()]
    is true and throws otherwise; [getValueOr(d)] returns the current value
    in the first case and [d] in the second. *)
Theorem accessors_agree c d w :
  (Main.hasValue c w = true ->
   getValue c w = Returns (value_of c w) /\ getValueOr c d w = value_of c w)
  /\ (Main.hasValue c w = false ->
      getValue c w = Throws (VError "State value is null or undefined")
      /\ getValueOr c d w = d
      /\ absent (value_of c w)).
Proof.
  unfold Main.hasValue, getValue, getValueOr, value_of, absent.
  destruct (getState (dollar_state c) w); simpl; split; intros H;
    try discriminate; repeat split; eauto.
Qed.

Lemma accessors_agree_witness :
  getValue (mkState 0) Engine.empty
  = Throws (VError "State value is null or undefined")
  /\ getValueOr (mkState 0) (VNum 1) Engine.empty = VNum 1
  /\ absent (value_of (mkState 0) Engine.empty).
Proof.
  apply (proj2 (accessors_agree (mkState 0) (VNum 1) Engine.empty)).
  reflexivity.
Defined.

(** X11: [clear()] leaves [null] in the cell whatever its initial value
    was, and a later [reset()] brings the initial value back. *)
Theorem clear_then_reset c w d :
  default_of c w = Some d ->
  value_of c (Main.clear c w) = VNull
  /\ value_of c (reset c (Main.clear c w)) = d.
Proof.
  intros Hd. unfold Main.clear.
  assert (default_of c (Engine.reset (dollar_state c) w) = Some d) as Hd1.
  { unfold default_of, Engine.reset in *.
    destruct (stores w !! dollar_state c) as [s|] eqn:E; [|done].
    by rewrite (install_lookup_self _ _ _ _ E). }
  assert (is_Some (stores (Engine.reset (dollar_state c) w) !! dollar_state c))
    as [s1 Hs1].
  { unfold default_of in Hd1.
    destruct (stores (Engine.reset (dollar_state c) w) !! dollar_state c);
      [by eexists|done]. }
  split.
  - unfold set, on, value_of. rewrite Hs1.
    by rewrite getState_commit_self by by rewrite Hs1.
  - apply value_reset. unfold set. by rewrite default_on.
Qed.

Lemma clear_then_reset_witness :
  value_of (mkState 0) (Main.clear (mkState 0) (State (VNum 5) Engine.empty).1)
  = VNull
  /\ value_of (mkState 0)
       (reset (mkState 0)
          (Main.clear (mkState 0) (State (VNum 5) Engine.empty).1))
     = VNum 5.
Proof.
  apply (clear_then_reset (mkState 0) (State (VNum 5) Engine.empty).1 (VNum 5)).
  reflexivity.
Defined.

(** X12: an effect made by [state.createEffect(handler)] writes a resolved
    result into the cell unless the result is [undefined]; a rejection
    leaves the cell as it was, and so does calling the effect. *)
Theorem bound_effect_writes_results c handler rs order k o params w :
  is_cell c w ->
  rs !! k = Some o ->
  let fx := with_running rs (createEffect c handler) in
  (call params fx w).2 = w
  /\ exists fx' w',
       settle order k fx w = Some (fx', w', o)
       /\ value_of c w'
          = match o with
            | Resolved v => if not_undefined v then v else value_of c w
            | Rejected _ => value_of c w
            end.
Proof.
  intros Hc Hk fx.
  split; [unfold call; simpl; by apply MainFacts.update_pending_unwatched|].
  unfold settle. subst fx. simpl. rewrite Hk.
  eexists _, _. split; [reflexivity|].
  unfold deliver_result, deliver_finally.
  rewrite !MainFacts.update_pending_unwatched by done.
  unfold run_watchers. simpl.
  destruct order, o as [v|r]; simpl; try done;
    destruct (not_undefined v) eqn:Hv; try done;
    rewrite value_set_self by done; unfold accepted; by rewrite Hv.
Qed.

Lemma bound_effect_writes_results_witness :
  let w := (State (VNum 5) Engine.empty).1 in
  let fx := with_running [Resolved VUndefined]
              (createEffect (mkState 0) (fun _ => Resolved VUndefined)) in
  (call VNull fx w).2 = w
  /\ exists fx' w',
       settle FinallyFirst 0 fx w = Some (fx', w', Resolved VUndefined)
       /\ value_of (mkState 0) w' = value_of (mkState 0) w.
Proof.
  apply (bound_effect_writes_results (mkState 0) (fun _ => Resolved VUndefined)
           [Resolved VUndefined] FinallyFirst 0 (Resolved VUndefined) VNull
           (State (VNum 5) Engine.empty).1).
  - eexists. split; vm_compute; reflexivity.
  - reflexivity.
Defined.

(** X13: [toggle()] installs the negation of the current value's
    truthiness, so an absent value becomes [true], and two [toggle()]s in
    a row give a boolean back. *)
Theorem toggle_twice c w :
  is_cell c w ->
  value_of c (toggle c w) = VBool (negb (truthy (value_of c w)))
  /\ (absent (value_of c w) -> value_of c (toggle c w) = VBool true)
  /\ (forall b, value_of c w = VBool b ->
              value_of c (toggle c (toggle c w)) = VBool b).
Proof.
  intros Hc. unfold toggle.
  assert (is_cell c (update c (fun prev => VBool (negb (truthy prev))) w))
    as Hc' by (by apply is_cell_on).
  rewrite !value_update_self by done. unfold accepted. simpl.
  split; [done|]. split.
  - by intros [-> | ->].
  - intros b ->. simpl. by rewrite negb_involutive.
Qed.

Lemma toggle_twice_witness :
  let c := (toggle_new VUndefined Engine.empty).2 in
  let w := (toggle_new VUndefined Engine.empty).1 in
  value_of c (toggle c w) = VBool (negb (truthy (value_of c w)))
  /\ (absent (value_of c w) -> value_of c (toggle c w) = VBool true)
  /\ (forall b, value_of c w = VBool b ->
              value_of c (toggle c (toggle c w)) = VBool b).
Proof.
  apply (toggle_twice (toggle_new VUndefined Engine.empty).2
           (toggle_new VUndefined Engine.empty).1).
  eexists. split; vm_compute; reflexivity.
Defined.

End MainStateFacts.

(** ** main.ts: validatedState *)

Module ValidatedFacts.
Import Engine EngineFacts StateCell CellFacts MainState Validated.

Lemma validated_handle_of_set h c v w :
  handle_of h w -> handle_of h (set c v w).
Proof.
  intros (H1 & H2 & H3 & N). unfold handle_of.
  split; [by apply is_cell_set|]. split; [by apply is_cell_set|].
  split; [by apply is_cell_set|exact N].
Qed.

Ltac read_validated :=
  repeat first
    [ rewrite value_set_self by (repeat apply is_cell_set; assumption)
    | rewrite value_set_other
        by first [ repeat apply is_cell_set; assumption | congruence ] ].

Lemma validatedSet_spec h v w :
  handle_of h w ->
  (accepts (validator h) v = true ->
   value_of (state h) (validatedSet h v w) = accepted (value_of (state h) w) v
   /\ isValid h (validatedSet h v w) = true
   /\ validationError h (validatedSet h v w) = VNull)
  /\ (accepts (validator h) v = false ->
      value_of (state h) (validatedSet h v w) = value_of (state h) w
      /\ isValid h (validatedSet h v w) = false
      /\ validationError h (validatedSet h v w)
         = match validator h v with
           | Returns _ => VStr "Validation failed"
           | Throws error => validation_message error
           end).
Proof.
  intros (Hs & Hi & He & N1 & N2 & N3).
  unfold accepts, validatedSet, isValid, validationError.
  destruct (validator h v) as [valid|error]; [destruct (truthy valid)|];
    split; intros Hacc; try discriminate;
    repeat split; read_validated; try reflexivity; by destruct error.
Qed.


(** X14: when the validator lets [v] through, the overriding [set(v)]
    leaves [isValid] true and no validation error, and installs [v], unless
    [v] is [undefined], in which case the cell keeps its value; when the
    validator returns a falsy value or throws, the cell keeps its value,
    [isValid] is false and the error is a message. *)
Theorem validated_set_outcomes h v w :
  handle_of h w ->
  (accepts (validator h) v = true ->
   value_of (state h) (validatedSet h v w)
   = match v with VUndefined => value_of (state h) w | _ => v end
   /\ isValid h (validatedSet h v w) = true
   /\ validationError h (validatedSet h v w) = VNull)
  /\ (accepts (validator h) v = false ->
      value_of (state h) (validatedSet h v w) = value_of (state h) w
      /\ isValid h (validatedSet h v w) = false
      /\ validationError h (validatedSet h v w)
         = match validator h v with
           | Returns _ => VStr "Validation failed"
           | Throws error => validation_message error
           end).
Proof.
  intros Hh. destruct (validatedSet_spec h v w Hh) as [Hyes Hno].
  split; [|exact Hno]. intros Hacc.
  destruct (Hyes Hacc) as (Hv & Hrest). split; [|exact Hrest].
  by rewrite <- accepted_case.
Qed.

Lemma validated_set_outcomes_witness :
  value_of (mkState 0)
    (validatedSet MainScenarios.validated_one_handle (VNum (-1))
       MainScenarios.validated_one.1)
  = value_of (mkState 0) MainScenarios.validated_one.1
  /\ isValid MainScenarios.validated_one_handle
       (validatedSet MainScenarios.validated_one_handle (VNum (-1))
          MainScenarios.validated_one.1) = false
  /\ validationError MainScenarios.validated_one_handle
       (validatedSet MainScenarios.validated_one_handle (VNum (-1))
          MainScenarios.validated_one.1) = VStr "Validation failed".
Proof.
  apply (proj2 (validated_set_outcomes MainScenarios.validated_one_handle
                  (VNum (-1)) MainScenarios.validated_one.1
                  ltac:(repeat split;
                        first [ eexists; split; vm_compute; reflexivity
                              | vm_compute; discriminate ]))).
  reflexivity.
Defined.

Lemma validatedState_handle init check w h w' :
  validatedState init check w = (w', inl h) ->
  handle_of h w'
  /\ validator h = check
  /\ value_of (state h) w' = default_null init
  /\ default_of (state h) w' = Some (default_null init).
Proof.
  unfold validatedState, State, createStore, alloc. simpl.
  destruct (check (default_null init)) as [valid|ex]; [|done].
  intros [= <- <-]. simpl.
  unfold handle_of, is_cell, value_of, default_of, getState. simpl.
  repeat split; try lia.
  - eexists. split; [|shelve].
    repeat (rewrite lookup_insert_ne by lia). by rewrite lookup_insert_eq.
  - eexists. split; [|shelve].
    repeat (rewrite lookup_insert_ne by lia). by rewrite lookup_insert_eq.
  - eexists. split; [|shelve]. by rewrite lookup_insert_eq.
  - repeat (rewrite lookup_insert_ne by lia). rewrite lookup_insert_eq. simpl.
    by destruct init.
  - repeat (rewrite lookup_insert_ne by lia). rewrite lookup_insert_eq. simpl.
    by destruct init.
  Unshelve. all: done.
Qed.

Lemma default_set_any c c' v w :
  is_cell c' w -> default_of c' (set c v w) = default_of c' w.
Proof. apply default_on_any. Qed.

Lemma validatedSet_keeps h v w d :
  handle_of h w -> default_of (state h) w = Some d ->
  handle_of h (validatedSet h v w)
  /\ default_of (state h) (validatedSet h v w) = Some d.
Proof.
  intros Hh Hd. pose proof Hh as (Hs & _).
  unfold validatedSet.
  destruct (validator h v) as [valid|error]; [destruct (truthy valid)|];
    (split; [by repeat apply validated_handle_of_set|]);
    rewrite !default_set_any by (repeat apply is_cell_set; exact Hs);
    exact Hd.
Qed.

Lemma perform_keeps_valid h c w d :
  handle_of h w ->
  default_of (state h) w = Some d ->
  accepts (validator h) d = true ->
  accepts (validator h) (value_of (state h) w) = true ->
  handle_of h (perform h c w)
  /\ default_of (state h) (perform h c w) = Some d
  /\ accepts (validator h) (value_of (state h) (perform h c w)) = true.
Proof.
  intros Hh Hd Hd0 Hv.
  assert (forall v,
            handle_of h (validatedSet h v w)
            /\ default_of (state h) (validatedSet h v w) = Some d
            /\ accepts (validator h) (value_of (state h) (validatedSet h v w))
               = true) as Hset.
  { intros v. destruct (validatedSet_keeps h v w d Hh Hd) as [H1 H2].
    split; [exact H1|]. split; [exact H2|].
    destruct (validatedSet_spec h v w Hh) as [Hyes Hno].
    destruct (accepts (validator h) v) eqn:E.
    - destruct (Hyes eq_refl) as (-> & _). rewrite accepted_case.
      destruct v; first [exact E | exact Hv].
    - destruct (Hno eq_refl) as (-> & _). exact Hv. }
  destruct c as [v|f|]; simpl.
  - apply Hset.
  - apply Hset.
  - destruct Hh as (Hs & Hi & He & N1 & N2 & N3).
    split; [|split].
    + unfold handle_of.
      split; [by apply is_cell_reset|]. split; [by apply is_cell_reset|].
      split; [by apply is_cell_reset|done].
    + by rewrite default_reset.
    + by rewrite (value_reset _ _ _ Hd).
Qed.

(** X15: if the validator lets the initial value through, the cell of a
    [validatedState] never holds a value the validator turns down, whatever
    [set], [update] and [reset] calls are made on the object. *)
Theorem validated_value_stays_valid init check w0 h w1 calls :
  validatedState init check w0 = (w1, inl h) ->
  accepts check (default_null init) = true ->
  accepts check
    (value_of (state h) (foldl (fun w c => perform h c w) w1 calls)) = true.
Proof.
  intros Hnew Hacc.
  destruct (validatedState_handle init check w0 h w1 Hnew)
    as (Hh & Hval & Hv & Hd).
  rewrite <- Hval in *. rewrite <- Hv in Hacc at 1.
  assert (accepts (validator h) (default_null init) = true) as Hd0
    by (by rewrite Hv in Hacc).
  clear Hnew Hv. revert w1 Hh Hd Hacc.
  induction calls as [|c calls IH]; intros w1 Hh Hd Hacc; [exact Hacc|].
  simpl.
  destruct (perform_keeps_valid h c w1 _ Hh Hd Hd0 Hacc) as (H1 & H2 & H3).
  by apply IH.
Qed.

Lemma validated_value_stays_valid_witness :
  accepts MainScenarios.natural
    (value_of (state MainScenarios.validated_one_handle)
       (foldl (fun w c => perform MainScenarios.validated_one_handle c w)
          MainScenarios.validated_one.1
          [CallSet (VNum (-1)); CallUpdate (fun _ => VStr "x"); CallSet (VNum 7)]))
  = true.
Proof.
  apply (validated_value_stays_valid (VNum 1) MainScenarios.natural Engine.empty
           MainScenarios.validated_one_handle MainScenarios.validated_one.1
           [CallSet (VNum (-1)); CallUpdate (fun _ => VStr "x"); CallSet (VNum 7)]).
  - reflexivity.
  - reflexivity.
Defined.

End ValidatedFacts.

(** ** main.ts: debouncedState *)

Module DebouncedFacts.
Import Engine EngineFacts StateCell CellFacts Observers Debounced.

Lemma request_spec m h w :
  request m (h, w)
  = (mkDebounced (state h) (immediateState h)
       (Some (apply_mutation m (value_of (immediateState h) w))),
     set (immediateState h) (apply_mutation m (value_of (immediateState h) w)) w).
Proof. by destruct m. Qed.

Lemma burst_invariant ms : forall h w,
  handle_of h w ->
  (forall m x, m ∈ ms -> apply_mutation m x <> VUndefined) ->
  handle_of (burst ms (h, w)).1 (burst ms (h, w)).2
  /\ state (burst ms (h, w)).1 = state h
  /\ immediateState (burst ms (h, w)).1 = immediateState h
  /\ value_of (state h) (burst ms (h, w)).2 = value_of (state h) w
  /\ value_of (immediateState h) (burst ms (h, w)).2
     = foldl (fun v m => apply_mutation m v) (value_of (immediateState h) w) ms
  /\ (ms <> [] ->
      timeoutId (burst ms (h, w)).1
      = Some (value_of (immediateState h) (burst ms (h, w)).2)).
Proof.
  induction ms as [|m ms IH]; intros h w Hh Hdef.
  { simpl. split; [exact Hh|]. do 4 (split; [reflexivity|]). by intros ?. }
  change (burst (m :: ms) (h, w)) with (burst ms (request m (h, w))).
  rewrite request_spec.
  set (v1 := apply_mutation m (value_of (immediateState h) w)).
  set (h1 := mkDebounced (state h) (immediateState h) (Some v1)).
  set (w1 := set (immediateState h) v1 w).
  destruct Hh as (Hs & Hi & Hne).
  assert (handle_of h1 w1) as Hh1.
  { subst h1 w1. unfold handle_of. simpl.
    split; [by apply is_cell_set|]. split; [by apply is_cell_set|done]. }
  assert (value_of (immediateState h) w1 = v1) as Hv1.
  { subst w1. rewrite value_set_self by done.
    apply accepted_defined, Hdef. by left. }
  assert (value_of (state h) w1 = value_of (state h) w) as Hs1
    by (subst w1; by apply value_set_other).
  destruct (IH h1 w1 Hh1) as (K1 & K2 & K3 & K4 & K5 & K6).
  { intros m' x Hm'. apply Hdef. by right. }
  change (state h1) with (state h) in *.
  change (immediateState h1) with (immediateState h) in *.
  split; [exact K1|]. split; [exact K2|]. split; [exact K3|].
  split; [by rewrite K4|]. split; [simpl; by rewrite K5, Hv1|].
  intros _. destruct ms as [|m' ms].
  - simpl. by rewrite Hv1.
  - by apply K6.
Qed.

(** X16: during a burst of [set] and [update] calls on a [debouncedState],
    none of which asks for [undefined], nothing reaches the cell; when the
    timer then fires, the cell receives the result of applying the whole
    burst, in order, to the value requested last before it, and a timer
    that has fired does not fire again. *)
Theorem debounced_burst h w ms :
  handle_of h w ->
  ms <> [] ->
  (forall m x, m ∈ ms -> apply_mutation m x <> VUndefined) ->
  let r := burst ms (h, w) in
  value_of (state h) r.2 = value_of (state h) w
  /\ value_of (state h) (timer_fires r).2
     = foldl (fun v m => apply_mutation m v) (value_of (immediateState h) w) ms
  /\ timeoutId (timer_fires r).1 = None
  /\ timer_fires (timer_fires r) = timer_fires r.
Proof.
  intros Hh Hms Hdef r.
  destruct (burst_invariant ms h w Hh Hdef) as (K1 & K2 & K3 & K4 & K5 & K6).
  fold r in K1, K2, K3, K4, K5, K6. specialize (K6 Hms).
  split; [exact K4|].
  unfold timer_fires at 1 2 3. rewrite K6. simpl.
  destruct K1 as (Hs & _). rewrite K2 in *.
  rewrite value_set_self by done.
  split; [|split; [done|unfold timer_fires; rewrite K6; reflexivity]].
  rewrite K5. apply accepted_defined.
  (* the value requested last is the result of a mutation of the burst *)
  destruct ms as [|m ms _] using rev_ind; [done|].
  rewrite foldl_app. simpl. apply Hdef, elem_of_app. right. by left.
Qed.

Lemma debounced_burst_witness :
  let r := burst [MSet (VNum 1); MUpdate (fun _ => VNum 2)]
             MainScenarios.debounced_zero in
  value_of (state MainScenarios.debounced_zero.1) r.2
  = value_of (state MainScenarios.debounced_zero.1) MainScenarios.debounced_zero.2
  /\ value_of (state MainScenarios.debounced_zero.1) (timer_fires r).2
     = foldl (fun v m => apply_mutation m v)
         (value_of (immediateState MainScenarios.debounced_zero.1)
            MainScenarios.debounced_zero.2)
         [MSet (VNum 1); MUpdate (fun _ => VNum 2)]
  /\ timeoutId (timer_fires r).1 = None
  /\ timer_fires (timer_fires r) = timer_fires r.
Proof.
  apply (debounced_burst MainScenarios.debounced_zero.1
           MainScenarios.debounced_zero.2
           [MSet (VNum 1); MUpdate (fun _ => VNum 2)]).
  - repeat split;
      first [ eexists; split; vm_compute; reflexivity
            | vm_compute; discriminate ].
  - discriminate.
  - intros m x Hm.
    repeat (apply elem_of_cons in Hm as [->|Hm]; [simpl; discriminate|]).
    by apply elem_of_nil in Hm.
Defined.

End DebouncedFacts.

(** ** main.ts: collection *)

Module CollectionFacts.
Import Engine EngineFacts StateCell CellFacts Collection.

(** After a method has rebuilt the array, the cell refers to the new one. *)
Lemma current_rebuild c build m w :
  is_cell c w ->
  current c (rebuild c build (m, w)) = build (current c (m, w))
  /\ is_cell c (rebuild c build (m, w)).2.
Proof.
  intros Hc. unfold rebuild, new_array, current. simpl. split.
  - rewrite value_update_self by done. simpl. by rewrite lookup_insert_eq.
  - by apply is_cell_on.
Qed.

Lemma without_index_spec index : forall arr i,
  without_index i index arr
  = if decide (Z.of_nat i <= index < Z.of_nat (i + length arr))%Z
    then delete (Z.to_nat index - i) arr
    else arr.
Proof.
  induction arr as [|x arr IH]; intros i; simpl.
  - by case_decide.
  - rewrite IH. destruct (Z.eqb_spec (Z.of_nat i) index) as [Heq|Hne];
      repeat case_decide; try lia; try done.
    + subst index. by replace (Z.to_nat (Z.of_nat i) - i) with 0 by lia.
    + by replace (Z.to_nat index - i) with (S (Z.to_nat index - S i)) by lia.
Qed.

(** X17: [pop()] on a collection with no items (or an absent value) returns
    [undefined] and updates nothing; otherwise it returns the last item and
    the collection keeps the items before it.  [shift()] does the same at
    the front. *)
Theorem pop_and_shift c m w :
  is_cell c w ->
  (current c (m, w) = [] ->
   pop c (m, w) = ((m, w), VUndefined) /\ shift c (m, w) = ((m, w), VUndefined))
  /\ (forall front x,
        current c (m, w) = front ++ [x] ->
        (pop c (m, w)).2 = x /\ current c (pop c (m, w)).1 = front)
  /\ (forall x back,
        current c (m, w) = x :: back ->
        (shift c (m, w)).2 = x /\ current c (shift c (m, w)).1 = back).
Proof.
  intros Hc. split; [|split].
  - intros He. unfold pop, shift. by rewrite He.
  - intros front x He. unfold pop. rewrite He.
    rewrite length_app. simpl.
    replace (length front + 1 =? 0) with false
      by (symmetry; apply Nat.eqb_neq; lia).
    simpl. split.
    + replace (length front + 1 - 1) with (length front) by lia.
      rewrite lookup_app_r by lia. by rewrite Nat.sub_diag.
    + destruct (current_rebuild c (fun prev => take (length prev - 1) prev) m w Hc)
        as [-> _].
      rewrite He, length_app. simpl.
      replace (length front + 1 - 1) with (length front) by lia.
      by rewrite take_app_length.
  - intros x back He. unfold shift. rewrite He. simpl. split; [done|].
    destruct (current_rebuild c (fun prev => drop 1 prev) m w Hc) as [-> _].
    by rewrite He.
Qed.

Lemma pop_and_shift_witness :
  (pop (mkState 0) MainScenarios.one_two).2 = VNum 2
  /\ current (mkState 0) (pop (mkState 0) MainScenarios.one_two).1 = [VNum 1].
Proof.
  destruct (pop_and_shift (mkState 0) MainScenarios.one_two.1
              MainScenarios.one_two.2) as (_ & Hpop & _).
  - eexists. split; vm_compute; reflexivity.
  - apply (Hpop [VNum 1] (VNum 2)). reflexivity.
Defined.

(** X18: [push(item)] followed by [pop()] gives [item] back and leaves the
    items as they were; so does [unshift(item)] followed by [shift()].  A
    push makes the collection one longer and non-empty. *)
Theorem push_then_pop c item m w :
  is_cell c w ->
  (pop c (push c item (m, w))).2 = item
  /\ current c (pop c (push c item (m, w))).1 = current c (m, w)
  /\ (shift c (unshift c item (m, w))).2 = item
  /\ current c (shift c (unshift c item (m, w))).1 = current c (m, w)
  /\ length_of c (push c item (m, w)) = S (length_of c (m, w))
  /\ isEmpty c (push c item (m, w)) = false.
Proof.
  intros Hc.
  destruct (current_rebuild c (fun prev => prev ++ [item]) m w Hc) as [Hpush Hc1].
  destruct (current_rebuild c (fun prev => item :: prev) m w Hc) as [Hunsh Hc2].
  fold (push c item (m, w)) in Hpush, Hc1.
  fold (unshift c item (m, w)) in Hunsh, Hc2.
  destruct (push c item (m, w)) as [m1 w1] eqn:E1.
  destruct (unshift c item (m, w)) as [m2 w2] eqn:E2.
  simpl in Hc1, Hc2.
  split; [|split; [|split; [|split; [|split]]]].
  - unfold pop. rewrite Hpush, length_app. simpl.
    replace (length (current c (m, w)) + 1 =? 0) with false
      by (symmetry; apply Nat.eqb_neq; lia).
    simpl. replace (length (current c (m, w)) + 1 - 1)
      with (length (current c (m, w))) by lia.
    rewrite lookup_app_r by lia. by rewrite Nat.sub_diag.
  - unfold pop. rewrite Hpush, length_app. simpl.
    replace (length (current c (m, w)) + 1 =? 0) with false
      by (symmetry; apply Nat.eqb_neq; lia).
    simpl.
    destruct (current_rebuild c (fun prev => take (length prev - 1) prev)
                m1 w1 Hc1) as [-> _].
    rewrite Hpush, length_app. simpl.
    replace (length (current c (m, w)) + 1 - 1)
      with (length (current c (m, w))) by lia.
    by rewrite take_app_length.
  - unfold shift. by rewrite Hunsh.
  - unfold shift. rewrite Hunsh. simpl.
    destruct (current_rebuild c (fun prev => drop 1 prev) m2 w2 Hc2) as [-> _].
    by rewrite Hunsh.
  - unfold length_of. rewrite Hpush, length_app. simpl. lia.
  - unfold isEmpty, length_of. rewrite Hpush, length_app. simpl.
    apply Nat.eqb_neq. lia.
Qed.

Lemma push_then_pop_witness :
  (pop (mkState 0) (push (mkState 0) (VNum 3) MainScenarios.one_two)).2 = VNum 3
  /\ current (mkState 0)
       (pop (mkState 0) (push (mkState 0) (VNum 3) MainScenarios.one_two)).1
     = current (mkState 0) MainScenarios.one_two.
Proof.
  destruct (push_then_pop (mkState 0) (VNum 3) MainScenarios.one_two.1
              MainScenarios.one_two.2) as (H1 & H2 & _).
  - eexists. split; vm_compute; reflexivity.
  - split; [exact H1|exact H2].
Defined.

(** X19: [removeAt(index)] removes the item at [index] when
    [0 <= index < length] and leaves the items as they are for any other
    index, negative ones included. *)
Theorem removeAt_bounds c index m w :
  is_cell c w ->
  ((0 <= index < Z.of_nat (length_of c (m, w)))%Z ->
   current c (removeAt c index (m, w))
   = delete (Z.to_nat index) (current c (m, w)))
  /\ ((index < 0 \/ Z.of_nat (length_of c (m, w)) <= index)%Z ->
      current c (removeAt c index (m, w)) = current c (m, w)).
Proof.
  intros Hc. unfold removeAt, length_of.
  destruct (current_rebuild c (fun prev => without_index 0 index prev) m w Hc)
    as [-> _].
  rewrite without_index_spec. simpl. split; intros H.
  - rewrite decide_True by lia. by rewrite Nat.sub_0_r.
  - by rewrite decide_False by lia.
Qed.

Lemma removeAt_bounds_witness :
  current (mkState 0) (removeAt (mkState 0) 0 MainScenarios.one_two)
  = delete (Z.to_nat 0) (current (mkState 0) MainScenarios.one_two)
  /\ current (mkState 0) (removeAt (mkState 0) (-1) MainScenarios.one_two)
     = current (mkState 0) MainScenarios.one_two.
Proof.
  split.
  - apply (removeAt_bounds (mkState 0) 0 MainScenarios.one_two.1
             MainScenarios.one_two.2).
    + eexists. split; vm_compute; reflexivity.
    + vm_compute. split; [discriminate|reflexivity].
  - apply (removeAt_bounds (mkState 0) (-1) MainScenarios.one_two.1
             MainScenarios.one_two.2).
    + eexists. split; vm_compute; reflexivity.
    + left. reflexivity.
Defined.

(** X20: [updateAt(index, updater)] applies [updater] to the item at
    [index] and to no other when [0 <= index < length]; for any other index
    the items stay as they are.  The number of items never changes. *)
Theorem updateAt_bounds c index updater m w :
  is_cell c w ->
  (forall x,
     (0 <= index)%Z ->
     current c (m, w) !! Z.to_nat index = Some x ->
     current c (updateAt c index updater (m, w))
     = <[Z.to_nat index := updater x]> (current c (m, w)))
  /\ ((index < 0 \/ Z.of_nat (length_of c (m, w)) <= index)%Z ->
      current c (updateAt c index updater (m, w)) = current c (m, w))
  /\ length_of c (updateAt c index updater (m, w)) = length_of c (m, w).
Proof.
  intros Hc. unfold updateAt, length_of.
  destruct (current_rebuild c (updated_at index updater) m w Hc) as [-> _].
  unfold updated_at. split; [|split].
  - intros x H0 Hx. pose proof (lookup_lt_Some _ _ _ Hx) as Hlt.
    replace ((0 <=? index)%Z && (index <? Z.of_nat (length (current c (m, w))))%Z)
      with true by (symmetry; apply andb_true_iff; split;
                    [apply Z.leb_le|apply Z.ltb_lt]; lia).
    by rewrite Hx.
  - intros H.
    replace ((0 <=? index)%Z && (index <? Z.of_nat (length (current c (m, w))))%Z)
      with false; [done|].
    symmetry. apply andb_false_iff.
    destruct H; [left; apply Z.leb_gt|right; apply Z.ltb_ge]; lia.
  - destruct ((0 <=? index)%Z && _); [|done].
    destruct (current c (m, w) !! Z.to_nat index); [|done].
    by rewrite length_insert.
Qed.

Lemma updateAt_bounds_witness :
  current (mkState 0)
    (updateAt (mkState 0) 1 (fun _ => VNum 9) MainScenarios.one_two)
  = <[Z.to_nat 1 := VNum 9]> (current (mkState 0) MainScenarios.one_two)
  /\ current (mkState 0)
       (updateAt (mkState 0) 2 (fun _ => VNum 9) MainScenarios.one_two)
     = current (mkState 0) MainScenarios.one_two.
Proof.
  split.
  - apply (proj1 (updateAt_bounds (mkState 0) 1 (fun _ => VNum 9)
                    MainScenarios.one_two.1 MainScenarios.one_two.2
                    ltac:(eexists; split; vm_compute; reflexivity))
             (VNum 2)).
    + discriminate.
    + reflexivity.
  - apply (proj1 (proj2 (updateAt_bounds (mkState 0) 2 (fun _ => VNum 9)
                    MainScenarios.one_two.1 MainScenarios.one_two.2
                    ltac:(eexists; split; vm_compute; reflexivity)))).
    right. vm_compute. discriminate.
Defined.

End CollectionFacts.

(** ** main.ts: form *)

Module FormFacts.
Import Engine EngineFacts StateCell CellFacts MainState Form.

Lemma fields_kept fields m v :
  (forall r, v = VObj r -> r < next_object m) ->
  fields_of (new_object fields m).1 v = fields_of m v.
Proof.
  intros Hv. destruct v; try done. simpl.
  rewrite lookup_insert_ne; [done|]. specialize (Hv ref eq_refl). lia.
Qed.

Lemma fields_new fields m :
  fields_of (new_object fields m).1 (new_object fields m).2 = fields.
Proof. simpl. by rewrite lookup_insert_eq. Qed.

(** Rebuilding the object of one cell: that cell shows the new properties,
    any other cell shows what it showed. *)
Lemma rebuild_spec c build m w :
  is_cell c w ->
  fields_of (rebuild c build (m, w)).1 (value_of c (rebuild c build (m, w)).2)
  = build (fields_of m (value_of c w))
  /\ (forall c',
        is_cell c' w -> dollar_state c' <> dollar_state c ->
        (forall r, value_of c' w = VObj r -> r < next_object m) ->
        value_of c' (rebuild c build (m, w)).2 = value_of c' w
        /\ fields_of (rebuild c build (m, w)).1
             (value_of c' (rebuild c build (m, w)).2)
           = fields_of m (value_of c' w)).
Proof.
  intros Hc. unfold rebuild. simpl. split.
  - rewrite value_update_self by done. simpl. by rewrite lookup_insert_eq.
  - intros c' Hc' Hne Hr.
    assert (value_of c' (update c (fun _ => VObj (next_object m)) w)
            = value_of c' w) as -> by (by apply value_on_other).
    split; [done|]. by apply (fields_kept _ m).
Qed.

Lemma form_handle_of initial m w :
  (forall r, default_null initial = VObj r -> r < next_object m) ->
  handle_of (form initial (m, w)).2 (form initial (m, w)).1.
Proof.
  intros Hr. unfold form, State, createStore, alloc, new_object, handle_of,
    is_cell, value_of, getState. simpl.
  repeat first [ rewrite lookup_insert_eq
               | rewrite lookup_insert_ne by lia ]. simpl.
  split; [by eexists|]. split; [by eexists|]. split; [by eexists|].
  split; [lia|]. split; [lia|]. split; [lia|]. split.
  - intros r Hv. apply Hr in Hv. lia.
  - intros r [= <-]. lia.
Qed.

Lemma value_update_other c c' updater w :
  is_cell c' w -> dollar_state c' <> dollar_state c ->
  value_of c' (update c updater w) = value_of c' w.
Proof. apply value_on_other. Qed.

Lemma handle_of_rebuild f c build m w :
  handle_of f (m, w) -> c = values f \/ c = errors f ->
  handle_of f (rebuild c build (m, w)).
Proof.
  intros (Hv & He & Hs & N1 & N2 & N3 & Bv & Be) Hc.
  unfold handle_of, rebuild. simpl in *.
  split; [by apply is_cell_on|]. split; [by apply is_cell_on|].
  split; [by apply is_cell_on|]. split; [done|]. split; [done|]. split; [done|].
  destruct Hc as [-> | ->]; split; intros r Hr.
  - rewrite value_update_self in Hr by done. injection Hr as <-. lia.
  - rewrite value_update_other in Hr by done. apply Be in Hr. lia.
  - rewrite value_update_other in Hr by done. apply Bv in Hr. lia.
  - rewrite value_update_self in Hr by done. injection Hr as <-. lia.
Qed.

(** X21: [setField(field, value)] gives the form's values that one field
    and leaves its other fields, its errors and [isValid] as they were. *)
Theorem setField_changes_one_field f field v m w :
  handle_of f (m, w) ->
  current_values f (setField f field v (m, w))
  = <[field := v]> (current_values f (m, w))
  /\ current_errors f (setField f field v (m, w)) = current_errors f (m, w)
  /\ isValid f (setField f field v (m, w)) = isValid f (m, w).
Proof.
  intros (Hv & He & Hs & N1 & N2 & N3 & Bv & Be).
  unfold setField, current_values, current_errors, isValid.
  destruct (rebuild_spec (values f) (fun prev => <[field := v]> prev) m w Hv)
    as [Hnew Hother].
  destruct (Hother (errors f) He (not_eq_sym N1) Be) as [_ Herr].
  split; [exact Hnew|]. split; [exact Herr|]. by rewrite Herr.
Qed.

(** Concrete forms: every component of [handle_of] is decided by
    evaluation. *)
Ltac form_by_evaluation :=
  repeat split;
  first [ eexists; split; vm_compute; reflexivity
        | vm_compute; discriminate
        | intros r Hr; vm_compute in Hr; injection Hr as <-; vm_compute; lia ].

Lemma setField_changes_one_field_witness :
  let f := MainScenarios.login_form.2 in
  let mw := MainScenarios.login_form.1 in
  current_values f (setField f "email" (VStr "a@b") mw)
  = <["email" := VStr "a@b"]> (current_values f mw)
  /\ current_errors f (setField f "email" (VStr "a@b") mw) = current_errors f mw
  /\ isValid f (setField f "email" (VStr "a@b") mw) = isValid f mw.
Proof.
  apply (setField_changes_one_field MainScenarios.login_form.2 "email"
           (VStr "a@b") MainScenarios.login_form.1.1 MainScenarios.login_form.1.2).
  form_by_evaluation.
Defined.

(** X22: [setFieldError(field, message)] with a message other than [null]
    records the message and makes [isValid] false; [setFieldError(field,
    null)] afterwards deletes it again, so the errors are the original ones
    without [field].  The values are not touched. *)
Theorem field_error_round_trip f field message m w :
  handle_of f (m, w) ->
  message <> VNull ->
  let mw1 := setFieldError f field message (m, w) in
  current_errors f mw1 = <[field := message]> (current_errors f (m, w))
  /\ isValid f mw1 = false
  /\ current_errors f (setFieldError f field VNull mw1)
     = delete field (current_errors f (m, w))
  /\ current_values f mw1 = current_values f (m, w).
Proof.
  intros Hh Hmsg mw1. pose proof Hh as (Hv & He & Hs & N1 & N2 & N3 & Bv & Be).
  assert (not_null message = true) as Hnn by (by destruct message).
  assert (handle_of f mw1) as Hh1
    by (subst mw1; apply handle_of_rebuild; [exact Hh|by right]).
  subst mw1. unfold setFieldError, current_errors, current_values, isValid in *.
  rewrite Hnn in *. simpl not_null. cbv iota.
  destruct (rebuild_spec (errors f) (fun prev => <[field := message]> prev)
              m w He) as [Hnew Hother].
  destruct (Hother (values f) Hv N1 Bv) as [_ Hvals].
  set (mw1 := rebuild (errors f) (fun prev => <[field := message]> prev) (m, w))
    in *.
  destruct mw1 as [m1 w1] eqn:E1. simpl in Hnew, Hvals.
  destruct Hh1 as (_ & He1 & _).
  destruct (rebuild_spec (errors f) (fun prev => delete field prev) m1 w1 He1)
    as [Hdel _].
  split; [exact Hnew|]. split; [|split].
  - simpl. rewrite Hnew. unfold no_keys. apply bool_decide_eq_false_2.
    apply insert_non_empty.
  - rewrite Hdel, Hnew. apply delete_insert_eq.
  - exact Hvals.
Qed.

Lemma field_error_round_trip_witness :
  let f := MainScenarios.login_form.2 in
  let mw := MainScenarios.login_form.1 in
  let mw1 := setFieldError f "password" (VStr "too short") mw in
  current_errors f mw1 = <["password" := VStr "too short"]> (current_errors f mw)
  /\ isValid f mw1 = false
  /\ current_errors f (setFieldError f "password" VNull mw1)
     = delete "password" (current_errors f mw)
  /\ current_values f mw1 = current_values f mw.
Proof.
  apply (field_error_round_trip MainScenarios.login_form.2 "password"
           (VStr "too short") MainScenarios.login_form.1.1
           MainScenarios.login_form.1.2).
  - form_by_evaluation.
  - discriminate.
Defined.

(** X23: [validate(validator)] throws, changing nothing, when the form's
    values are absent; otherwise it stores what the validator returns as the
    errors and returns [true] exactly when the validator returned no error
    at all, which is then also what [isValid] shows. *)
Theorem validate_outcome f validator m w :
  handle_of f (m, w) ->
  (Main.hasValue (values f) w = false ->
   validate f validator (m, w)
   = ((m, w), Throws (VError "State value is null or undefined")))
  /\ (Main.hasValue (values f) w = true ->
      let r := validate f validator (m, w) in
      r.2 = Returns (VBool (no_keys (validator (current_values f (m, w)))))
      /\ current_errors f r.1 = validator (current_values f (m, w))
      /\ isValid f r.1 = no_keys (validator (current_values f (m, w)))).
Proof.
  intros (Hv & He & Hs & N1 & N2 & N3 & Bv & Be).
  unfold validate, getValue, Main.hasValue, current_values, current_errors,
    isValid, value_of. simpl.
  destruct (not_null (getState (dollar_state (values f)) w)
            && not_undefined (getState (dollar_state (values f)) w)) eqn:E.
  - split; [done|]. intros _.
    apply andb_true_iff in E as [-> ->]. simpl.
    fold (value_of (errors f)
            (set (errors f) (VObj (next_object m)) w)).
    rewrite value_set_self by done. simpl. rewrite lookup_insert_eq. simpl.
    done.
  - split; [|done]. intros _.
    apply andb_false_iff in E as [-> | ->]; simpl; [done|].
    by rewrite orb_true_r.
Qed.

Lemma validate_outcome_witness :
  let f := MainScenarios.login_form.2 in
  let mw := MainScenarios.login_form.1 in
  let check := fun fields : gmap string value =>
                 if bool_decide (fields !! "email" = Some (VStr ""))
                 then {["email" := VStr "Invalid email"]} else ∅ in
  let r := validate f check mw in
  r.2 = Returns (VBool (no_keys (check (current_values f mw))))
  /\ current_errors f r.1 = check (current_values f mw)
  /\ isValid f r.1 = no_keys (check (current_values f mw)).
Proof.
  apply (proj2 (validate_outcome MainScenarios.login_form.2
                  (fun fields : gmap string value =>
                     if bool_decide (fields !! "email" = Some (VStr ""))
                     then {["email" := VStr "Invalid email"]} else ∅)
                  MainScenarios.login_form.1.1 MainScenarios.login_form.1.2
                  ltac:(form_by_evaluation))).
  reflexivity.
Defined.

(** X24: [reset()] of a form puts the initial values back, empties the
    errors, so that [isValid] is true, and sets [isSubmitting] to false.
    (The initial values are a record by the parameter's type; were they
    [undefined], the values would stay as they are.) *)
Theorem form_reset f m w :
  handle_of f (m, w) ->
  value_of (values f) (reset f (m, w)).2
  = match initialValues f with
    | VUndefined => value_of (values f) w
    | given => given
    end
  /\ current_errors f (reset f (m, w)) = ∅
  /\ isValid f (reset f (m, w)) = true
  /\ value_of (isSubmitting f) (reset f (m, w)).2 = VBool false.
Proof.
  intros (Hv & He & Hs & N1 & N2 & N3 & Bv & Be).
  unfold reset, current_errors, isValid. simpl.
  assert (value_of (errors f)
            (set (isSubmitting f) (VBool false)
               (set (errors f) (VObj (next_object m))
                  (set (values f) (initialValues f) w)))
          = VObj (next_object m)) as Herr.
  { rewrite value_set_other
      by first [repeat apply is_cell_set; assumption|congruence].
    by rewrite value_set_self by (repeat apply is_cell_set; assumption). }
  rewrite Herr. simpl. rewrite lookup_insert_eq. simpl.
  split; [|split; [done|split; [done|]]].
  - rewrite !value_set_other
      by first [repeat apply is_cell_set; assumption|congruence].
    rewrite value_set_self by done. by destruct (initialValues f).
  - by rewrite value_set_self by (repeat apply is_cell_set; assumption).
Qed.

Lemma form_reset_witness :
  let f := MainScenarios.login_form.2 in
  let mw := setFieldError f "email" (VStr "bad") MainScenarios.login_form.1 in
  value_of (values f) (reset f mw).2 = initialValues f
  /\ current_errors f (reset f mw) = ∅
  /\ isValid f (reset f mw) = true
  /\ value_of (isSubmitting f) (reset f mw).2 = VBool false.
Proof.
  apply (form_reset MainScenarios.login_form.2
           (setFieldError MainScenarios.login_form.2 "email" (VStr "bad")
              MainScenarios.login_form.1).1
           (setFieldError MainScenarios.login_form.2 "email" (VStr "bad")
              MainScenarios.login_form.1).2).
  form_by_evaluation.
Defined.

End FormFacts.
